(** * TopicMining: the Wikipedia trend finder

    A shallow embedding of [TopicMining.py]: the topic resolver
    [find_relevant_wiki_pages], the form handler [main], and the pieces of
    the Python runtime they call ([str.strip], [str.split], [str.join],
    [str.replace], the [in] operator and [urllib.parse.quote]).

    A Python [str] is a sequence of Unicode code points; it is modelled as
    a list of [N].  User-interface calls and the request to the completion
    endpoint are recorded, in order, in a trace of events. *)

From Stdlib Require Import List NArith ZArith Bool Lia String Ascii QArith.
Import ListNotations.

Local Open Scope N_scope.
Local Open Scope list_scope.

(** ** Python strings *)

Module Py.

(** A code point, 0 .. 0x10FFFF. *)
Definition codepoint := N.

(** A Python [str]. *)
Definition str := list codepoint.

(** An ASCII literal of the source, as a [str]. *)
Fixpoint lit (s : string) : str :=
  match s with
  | EmptyString => []
  | String a s' => N_of_ascii a :: lit s'
  end.

Definition PIPE : codepoint := 124.        (* '|' *)
Definition UNDERSCORE : codepoint := 95.   (* '_' *)
Definition HYPHEN : codepoint := 45.       (* '-' *)
Definition SPACE : codepoint := 32.        (* ' ' *)
Definition PERCENT : codepoint := 37.      (* '%' *)
Definition NEWLINE : codepoint := 10.      (* '\n' *)

(** [str.isspace] on one code point: the characters CPython's
    [_PyUnicode_IsWhitespace] accepts. *)
Definition isspace (c : codepoint) : bool :=
  ((9 <=? c) && (c <=? 13))
  || ((28 <=? c) && (c <=? 32))
  || (c =? 133) || (c =? 160) || (c =? 5760)
  || ((8192 <=? c) && (c <=? 8202))
  || (c =? 8232) || (c =? 8233) || (c =? 8239) || (c =? 8287)
  || (c =? 12288).

(** [s.lstrip()] *)
Fixpoint lstrip (s : str) : str :=
  match s with
  | [] => []
  | c :: s' => if isspace c then lstrip s' else s
  end.

(** [s.rstrip()] *)
Definition rstrip (s : str) : str := rev (lstrip (rev s)).

(** [s.strip()] *)
Definition strip (s : str) : str := rstrip (lstrip s).

(** [s.split(sep)] for a separator of one character.  The result is never
    empty: a string without the separator is returned whole. *)
Fixpoint split (sep : codepoint) (s : str) : list str :=
  match s with
  | [] => [[]]
  | c :: s' =>
      if c =? sep then [] :: split sep s'
      else match split sep s' with
           | seg :: segs => (c :: seg) :: segs
           | [] => [[c]]
           end
  end.

(** [sep.join(parts)] *)
Fixpoint join (sep : str) (parts : list str) : str :=
  match parts with
  | [] => []
  | [p] => p
  | p :: ps => p ++ sep ++ join sep ps
  end.

(** [c in s] for a single character [c]. *)
Definition contains_char (c : codepoint) (s : str) : bool :=
  existsb (N.eqb c) s.

(** [s.startswith(p)] *)
Fixpoint startswith (p s : str) : bool :=
  match p, s with
  | [], _ => true
  | _ :: _, [] => false
  | a :: p', b :: s' => (a =? b) && startswith p' s'
  end.

(** [p in s] for strings: [p] occurs somewhere in [s]. *)
Fixpoint contains (p s : str) : bool :=
  startswith p s ||
  match s with
  | [] => false
  | _ :: s' => contains p s'
  end.

(** [s.replace(a, b)] where [a] and [b] are single characters. *)
Definition replace_char (a b : codepoint) (s : str) : str :=
  map (fun c => if c =? a then b else c) s.

(** Truth value of a [str]: the empty string is false. *)
Definition truthy (s : str) : bool :=
  match s with [] => false | _ :: _ => true end.

(** Truth value of a value that is a [str] or [None]. *)
Definition truthy_opt (o : option str) : bool :=
  match o with None => false | Some s => truthy s end.

End Py.

(** ** [urllib.parse.quote] *)

Module Urllib.
Import Py.

(** A byte, 0 .. 255. *)
Definition byte := N.

(** A surrogate code point, which UTF-8 (with [errors='strict']) refuses. *)
Definition is_surrogate (c : codepoint) : bool :=
  (55296 <=? c) && (c <=? 57343).

(** [c.encode('utf-8')] for one code point; [None] is Python's
    [UnicodeEncodeError]. *)
Definition utf8_encode_cp (c : codepoint) : option (list byte) :=
  if c <? 128 then Some [c]
  else if c <? 2048 then Some [192 + c / 64; 128 + c mod 64]
  else if is_surrogate c then None
  else if c <? 65536 then
    Some [224 + c / 4096; 128 + (c / 64) mod 64; 128 + c mod 64]
  else
    Some [240 + c / 262144; 128 + (c / 4096) mod 64;
          128 + (c / 64) mod 64; 128 + c mod 64].

(** [s.encode('utf-8', 'strict')] *)
Fixpoint utf8_encode (s : str) : option (list byte) :=
  match s with
  | [] => Some []
  | c :: s' =>
      match utf8_encode_cp c, utf8_encode s' with
      | Some bs, Some rest => Some (bs ++ rest)
      | _, _ => None
      end
  end.

(** The bytes [quote] never escapes: [_ALWAYS_SAFE], that is the ASCII
    letters, the digits and [_.-~], and the default [safe='/']. *)
Definition is_safe (b : byte) : bool :=
  ((65 <=? b) && (b <=? 90))        (* A-Z *)
  || ((97 <=? b) && (b <=? 122))    (* a-z *)
  || ((48 <=? b) && (b <=? 57))     (* 0-9 *)
  || (b =? 95) || (b =? 46) || (b =? 45) || (b =? 126)   (* _ . - ~ *)
  || (b =? 47).                     (* / *)

(** One upper-case hexadecimal digit. *)
Definition hex_digit (n : N) : codepoint :=
  if n <? 10 then 48 + n else 55 + n.

(** ['%{:02X}'.format(b)] *)
Definition percent_escape (b : byte) : str :=
  [PERCENT; hex_digit (b / 16); hex_digit (b mod 16)].

(** What [quote_from_bytes] emits for one byte. *)
Definition quote_byte (b : byte) : str :=
  if is_safe b then [b] else percent_escape b.

(** [quote_from_bytes(bs, safe='/')] *)
Definition quote_from_bytes (bs : list byte) : str :=
  flat_map quote_byte bs.

(** [urllib.parse.quote(s)]: the string is encoded as UTF-8 and every byte
    outside the safe set is percent-escaped.  [None] is the
    [UnicodeEncodeError] of the encoding step. *)
Definition quote (s : str) : option str :=
  option_map quote_from_bytes (utf8_encode s).

End Urllib.

(** ** The application *)

Module App.
Import Py Urllib.

(** *** Exceptions, requests and responses *)

(** An instance of [Exception], as the resolver's [try] block may raise:
    its class and the text [str(e)] gives. *)
Record exn := Exception { exn_class : string; exn_text : str }.

(** [str(e)] *)
Definition exn_str (e : exn) : str := exn_text e.

(** The [UnicodeEncodeError] that [urllib.parse.quote] raises on a string
    it cannot encode; [main] does not catch it. *)
Inductive encode_error := UnicodeEncodeError (object : str).

(** One message of a chat request. *)
Record chat_message := Message { role : str; content : str }.

(** The arguments of [client.chat.completions.create]. *)
Record chat_request := Request {
  model : str;
  messages : list chat_message;
  temperature : Q
}.

(** What the endpoint answers: a list of choices, each of which carries a
    message whose content is a string or [None]. *)
Record chat_choice := Choice { message_content : option str }.
Record chat_completion := Completion { choices : list chat_choice }.

(** The completion endpoint, as the client library presents it: a call
    returns a completion or raises. *)
Definition endpoint := chat_request -> exn + chat_completion.

(** *** The user interface *)

(** What the user left in the form when the script runs. *)
Record form_state := Form {
  form_product_desc : str;
  form_customer_profile : str;
  form_submitted : bool
}.

(** The calls the script makes on Streamlit and on the client library, in
    the order it makes them. *)
Inductive event :=
| StTitle (body : str)
| StMarkdown (body : str)
| StFormBegin (key : str)
| StTextArea (label : str) (height : N) (placeholder : str)
| StFormSubmitButton (label : str)
| StFormEnd
| StWarning (body : str)
| StError (body : str)
| StSuccess (body : str)
| StSpinner (text : str)
| StSubheader (body : str)
| StLinkButton (label url : str)
| StWrite (body : str)
| CompletionsCreate (req : chat_request).

(** *** Computations that emit events and may raise *)

(** A computation yields the events it emitted and then either an
    exception of type [E] ([inl]) or a value ([inr]). *)
Definition io (E A : Type) : Type := list event * (E + A).

Definition ret {E A} (a : A) : io E A := ([], inr a).

Definition bind {E A B} (m : io E A) (f : A -> io E B) : io E B :=
  match m with
  | (t, inl e) => (t, inl e)
  | (t, inr a) => let '(t', r) := f a in (t ++ t', r)
  end.

Definition emit {E} (ev : event) : io E unit := ([ev], inr tt).

Definition raise {E A} (e : E) : io E A := ([], inl e).

(** [try: m  except Exception as e: h e] *)
Definition try_except {E E' A} (m : io E A) (h : E -> io E' A) : io E' A :=
  match m with
  | (t, inl e) => let '(t', r) := h e in (t ++ t', r)
  | (t, inr a) => (t, inr a)
  end.

Notation "x <- m ;; k" := (bind m (fun x => k))
  (at level 61, m at next level, right associativity).
Notation "m ;;; k" := (bind m (fun _ => k))
  (at level 61, right associativity).

(** The events of a computation, and its result. *)
Definition trace {E A} (m : io E A) : list event := fst m.
Definition result {E A} (m : io E A) : E + A := snd m.

(** *** [find_relevant_wiki_pages] *)

Definition system_prompt : str := lit
"
    You are an expert market researcher and SEO strategist. Your task is to identify highly relevant Wikipedia pages that an ideal customer for a given product might be interested in. These pages represent potential content marketing or advertising opportunities.
    ".

(** The user prompt, an f-string around the two fields of the form. *)
Definition user_prompt (product_desc customer_profile : str) : str :=
  lit "
    **Product Description:**
    " ++ product_desc ++ lit "

    **Ideal Customer Profile:**
    " ++ customer_profile ++ lit "

    ---
    **Instructions:**
    1.  Analyze the product and customer profile to understand their core interests, problems, and related concepts.
    2.  Generate a list of exactly 10 highly relevant English Wikipedia page titles.
    3.  Format the titles as they appear in a Wikipedia URL (e.g., use underscores `_` instead of spaces, like `Sustainable_living`).
    4.  **CRITICAL:** Your entire response MUST BE ONLY these 10 titles, separated by a single vertical bar `|` character. Do not include any introductory text, explanations, numbers, or bullet points.

    **Example of a perfect response:**
    Sustainable_living|Circular_economy|Minimalism|Zero-waste_movement|Ethical_consumerism|Fair_trade|Slow_food|Community-supported_agriculture|Permaculture|B_Corporation
    ".

Definition invalid_key_message : str :=
  lit "The hardcoded OpenAI API key appears to be invalid. Please check the script.".

Definition bad_format_message : str :=
  lit "AI model did not return the expected pipe-separated format.".

(** [not api_key or "sk-proj" not in api_key] *)
Definition key_rejected (api_key : option str) : bool :=
  match api_key with
  | None => true
  | Some k => negb (truthy k) || negb (contains (lit "sk-proj") k)
  end.

(** The request the resolver sends. *)
Definition completion_request (product_desc customer_profile : str)
  : chat_request :=
  {| model := lit "gpt-4o";
     messages :=
       [ {| role := lit "system"; content := system_prompt |};
         {| role := lit "user";
            content := user_prompt product_desc customer_profile |} ];
     temperature := 0.5%Q |}.

(** [client.chat.completions.create(...)]: the call is recorded, then it
    returns or raises as the endpoint decides. *)
Definition completions_create (create : endpoint) (req : chat_request)
  : io exn chat_completion :=
  ([CompletionsCreate req], create req).

(** The [IndexError] of [response.choices[0]] on an empty list. *)
Definition index_error : exn :=
  {| exn_class := "IndexError"; exn_text := lit "list index out of range" |}.

(** The [AttributeError] of [content.strip()] when the content is [None]. *)
Definition attribute_error : exn :=
  {| exn_class := "AttributeError";
     exn_text := lit "'NoneType' object has no attribute 'strip'" |}.

(** The [ValueError] the validation raises. *)
Definition format_error : exn :=
  {| exn_class := "ValueError"; exn_text := bad_format_message |}.

(** [response.choices[0].message.content.strip()]: indexing an empty list
    and calling [strip] on [None] raise. *)
Definition first_content_stripped (response : chat_completion) : io exn str :=
  match choices response with
  | [] => raise index_error
  | c :: _ =>
      match message_content c with
      | None => raise attribute_error
      | Some body => ret (strip body)
      end
  end.

(** ['|' not in s or len(s.split('|')) < 5] *)
Definition format_rejected (page_titles_string : str) : bool :=
  negb (contains_char PIPE page_titles_string)
  || Nat.ltb (List.length (split PIPE page_titles_string)) 5.

(** The body of the [try] block. *)
Definition resolver_try (create : endpoint)
  (product_desc customer_profile : str) : io exn (option str) :=
  response <- completions_create create
                (completion_request product_desc customer_profile) ;;
  page_titles_string <- first_content_stripped response ;;
  if format_rejected page_titles_string
  then raise format_error
  else ret (Some page_titles_string).

(** [f"An error occurred while contacting the OpenAI API: {e}"] *)
Definition api_error_message (e : exn) : str :=
  lit "An error occurred while contacting the OpenAI API: " ++ exn_str e.

(** The [except Exception as e] handler. *)
Definition resolver_except {E} (e : exn) : io E (option str) :=
  emit (StError (api_error_message e)) ;;;
  ret None.

(** [find_relevant_wiki_pages(api_key, product_desc, customer_profile)]:
    the page titles separated by ['|'], or [None] on failure.  Creating the
    client object sends nothing; the one call on the endpoint is inside the
    [try] block, which catches every exception, so the function raises
    none. *)
Definition find_relevant_wiki_pages {E} (create : endpoint)
  (api_key : option str) (product_desc customer_profile : str)
  : io E (option str) :=
  if key_rejected api_key then
    emit (StError invalid_key_message) ;;;
    ret None
  else
    try_except (resolver_try create product_desc customer_profile)
               resolver_except.

(** *** [main] *)

Definition page_title : str :=
  128200 :: lit " AI-Powered Topic Mining Tool".

Definition intro_text : str :=
  lit "Describe your product and ideal customer. The system will find 10 relevant Wikipedia topics and generate a link to track their popularity.".

Definition product_label : str :=
  lit "**1. Enter your Product or Service Description**".

Definition product_placeholder : str :=
  lit "e.g., A subscription box for artisanal, ethically-sourced coffee beans from around the world. We focus on single-origin, specialty grade coffee.".

Definition customer_label : str :=
  lit "**2. Describe your Ideal Customer Profile**".

Definition customer_placeholder : str :=
  lit "e.g., Environmentally conscious millennials, aged 25-40, living in urban areas. They appreciate quality over quantity, are interested in the story behind their products, and frequent local cafes.".

Definition submit_label : str :=
  128640 :: lit " Find Relevant Topics".

Definition missing_input_warning : str :=
  9888 :: 65039 ::
  lit " Please fill out both the product description and customer profile.".

Definition spinner_text : str :=
  129504 ::
  lit " gpt-4o is analyzing your input and finding relevant topics...".

Definition success_text : str :=
  9989 :: lit " Success! Found relevant topics.".

Definition failure_text : str :=
  10060 ::
  lit " Could not generate Wikipedia topics. The AI may be experiencing issues or the response was malformed. Please try rephrasing your input or try again in a moment.".

Definition base_url : str :=
  lit "https://pageviews.wmcloud.org/?project=en.wikipedia.org&platform=all-access&agent=user&redirects=0&range=latest-20&pages=".

(** The bullet that starts each displayed topic, [" • "]. *)
Definition bullet : str := [SPACE; 8226; SPACE].

(** [[urllib.parse.quote(page.strip()) for page in page_list]]: the
    comprehension stops at the first page [quote] refuses. *)
Fixpoint encoded_pages (page_list : list str) : encode_error + list str :=
  match page_list with
  | [] => inr []
  | page :: rest =>
      match quote (strip page) with
      | None => inl (UnicodeEncodeError (strip page))
      | Some enc =>
          match encoded_pages rest with
          | inl e => inl e
          | inr encs => inr (enc :: encs)
          end
      end
  end.

(** [[p.replace('_', ' ').strip() for p in page_list]] *)
Definition readable_pages (page_list : list str) : list str :=
  map (fun p => strip (replace_char UNDERSCORE SPACE p)) page_list.

(** [" • " + "\n • ".join(readable_pages)] *)
Definition topics_text (page_list : list str) : str :=
  bullet ++ join (NEWLINE :: bullet) (readable_pages page_list).

(** The link-building step: lines 112 to 118 of the source. *)
Definition final_url (wiki_pages_str : str) : encode_error + str :=
  let page_list := split PIPE wiki_pages_str in
  match encoded_pages page_list with
  | inl e => inl e
  | inr encoded =>
      let encoded_pages_str := join [PIPE] encoded in
      inr (base_url ++ encoded_pages_str)
  end.

(** The branch of [main] taken when the resolver returned a non-empty
    string. *)
Definition show_topics (wiki_pages_str : str) : io encode_error unit :=
  emit (StSuccess success_text) ;;;
  url <- ([], final_url wiki_pages_str) ;;
  emit (StMarkdown (lit "---")) ;;;
  emit (StSubheader (lit "Your Custom Wikipedia Pageview URL")) ;;;
  emit (StMarkdown (lit "Click the button below to see the 20-day pageview trends for these topics. You can bookmark the link to monitor interest over time!")) ;;;
  emit (StLinkButton (lit "View Wikipedia Trends Now") url) ;;;
  emit (StMarkdown (lit "---")) ;;;
  emit (StMarkdown (lit "#### Topics Found by gpt-4o:")) ;;;
  emit (StWrite (topics_text (split PIPE wiki_pages_str))).

(** The [else] branch: the resolver returned [None] or an empty string. *)
Definition show_failure : io encode_error unit :=
  emit (StError failure_text).

(** [main()], run with the configured key, the endpoint and what the user
    left in the form. *)
Definition main (OPENAI_API_KEY : str) (create : endpoint)
  (form : form_state) : io encode_error unit :=
  let product_desc := form_product_desc form in
  let customer_profile := form_customer_profile form in
  emit (StTitle page_title) ;;;
  emit (StMarkdown intro_text) ;;;
  emit (StFormBegin (lit "input_form")) ;;;
  emit (StTextArea product_label 150 product_placeholder) ;;;
  emit (StTextArea customer_label 150 customer_placeholder) ;;;
  emit (StFormSubmitButton submit_label) ;;;
  emit StFormEnd ;;;
  if form_submitted form then
    if negb (truthy product_desc) || negb (truthy customer_profile) then
      emit (StWarning missing_input_warning)
    else
      emit (StSpinner spinner_text) ;;;
      wiki_pages_str <- find_relevant_wiki_pages create (Some OPENAI_API_KEY)
                          product_desc customer_profile ;;
      match wiki_pages_str with
      | Some s => if truthy s then show_topics s else show_failure
      | None => show_failure
      end
  else ret tt.

(** The events every run starts with: the title, the introduction and
    the form. *)
Definition form_events : list event :=
  [ StTitle page_title;
    StMarkdown intro_text;
    StFormBegin (lit "input_form");
    StTextArea product_label 150 product_placeholder;
    StTextArea customer_label 150 customer_placeholder;
    StFormSubmitButton submit_label;
    StFormEnd ].

(** The events of the success branch once the URL is built. *)
Definition topic_events (url : str) (page_list : list str) : list event :=
  [ StSuccess success_text;
    StMarkdown (lit "---");
    StSubheader (lit "Your Custom Wikipedia Pageview URL");
    StMarkdown (lit "Click the button below to see the 20-day pageview trends for these topics. You can bookmark the link to monitor interest over time!");
    StLinkButton (lit "View Wikipedia Trends Now") url;
    StMarkdown (lit "---");
    StMarkdown (lit "#### Topics Found by gpt-4o:");
    StWrite (topics_text page_list) ].

(** *** Reading a trace *)

(** The requests sent to the completion endpoint. *)
Definition requests (t : list event) : list chat_request :=
  flat_map (fun ev => match ev with CompletionsCreate r => [r] | _ => [] end) t.

(** The URLs of the link buttons shown. *)
Definition link_urls (t : list event) : list str :=
  flat_map (fun ev => match ev with StLinkButton _ u => [u] | _ => [] end) t.

(** The error messages shown. *)
Definition errors (t : list event) : list str :=
  flat_map (fun ev => match ev with StError m => [m] | _ => [] end) t.

(** The warnings shown. *)
Definition warnings (t : list event) : list str :=
  flat_map (fun ev => match ev with StWarning m => [m] | _ => [] end) t.

(** The success messages shown. *)
Definition successes (t : list event) : list str :=
  flat_map (fun ev => match ev with StSuccess m => [m] | _ => [] end) t.

(** The texts written with [st.write]. *)
Definition written (t : list event) : list str :=
  flat_map (fun ev => match ev with StWrite m => [m] | _ => [] end) t.

End App.

(** ** Reading a trend URL back

    The round trip the specification describes: the value of the [pages]
    parameter is split on its pipes and every field is percent-decoded.
    These definitions follow the specification; no source function
    corresponds to them. *)

Module Spec.
Import Py Urllib App.

(** The value of a hexadecimal digit. *)
Definition hex_value (c : codepoint) : option N :=
  if (48 <=? c) && (c <=? 57) then Some (c - 48)
  else if (65 <=? c) && (c <=? 70) then Some (c - 55)
  else if (97 <=? c) && (c <=? 102) then Some (c - 87)
  else None.

(** Percent-decoding to bytes: [%XY] is the byte with hexadecimal digits
    [X] and [Y], any other ASCII character stands for itself. *)
Fixpoint percent_decode_bytes (s : str) : option (list byte) :=
  match s with
  | [] => Some []
  | c :: r =>
      if c =? PERCENT then
        match r with
        | x :: y :: r' =>
            match hex_value x, hex_value y, percent_decode_bytes r' with
            | Some hi, Some lo, Some bs => Some (16 * hi + lo :: bs)
            | _, _, _ => None
            end
        | _ => None
        end
      else if c <? 128 then option_map (cons c) (percent_decode_bytes r)
      else None
  end.

(** A continuation byte, [10xxxxxx]. *)
Definition is_continuation (b : byte) : bool := (128 <=? b) && (b <? 192).

(** Decoding UTF-8. *)
Fixpoint utf8_decode (bs : list byte) : option str :=
  match bs with
  | [] => Some []
  | b0 :: r0 =>
      if b0 <? 128 then option_map (cons b0) (utf8_decode r0)
      else if b0 <? 192 then None
      else if b0 <? 224 then
        match r0 with
        | b1 :: r1 =>
            if is_continuation b1
            then option_map (cons ((b0 - 192) * 64 + (b1 - 128)))
                            (utf8_decode r1)
            else None
        | _ => None
        end
      else if b0 <? 240 then
        match r0 with
        | b1 :: b2 :: r2 =>
            if is_continuation b1 && is_continuation b2
            then option_map
                   (cons ((b0 - 224) * 4096 + (b1 - 128) * 64 + (b2 - 128)))
                   (utf8_decode r2)
            else None
        | _ => None
        end
      else if b0 <? 248 then
        match r0 with
        | b1 :: b2 :: b3 :: r3 =>
            if is_continuation b1 && is_continuation b2 && is_continuation b3
            then option_map
                   (cons ((b0 - 240) * 262144 + (b1 - 128) * 4096
                          + (b2 - 128) * 64 + (b3 - 128)))
                   (utf8_decode r3)
            else None
        | _ => None
        end
      else None
  end.

(** Percent-decoding one field of the query value. *)
Definition percent_decode (s : str) : option str :=
  match percent_decode_bytes s with
  | Some bs => utf8_decode bs
  | None => None
  end.

(** Decoding every field, in order. *)
Fixpoint decode_fields (fields : list str) : option (list str) :=
  match fields with
  | [] => Some []
  | f :: fs =>
      match percent_decode f, decode_fields fs with
      | Some d, Some ds => Some (d :: ds)
      | _, _ => None
      end
  end.

(** The value of the [pages] parameter: what follows the base URL. *)
Definition pages_value (url : str) : option str :=
  if startswith base_url url
  then Some (skipn (List.length base_url) url)
  else None.

(** The pages a trend URL names: its [pages] value split on the pipes,
    each field percent-decoded. *)
Definition pages_of_url (url : str) : option (list str) :=
  match pages_value url with
  | Some v => decode_fields (split PIPE v)
  | None => None
  end.

(** A string all of whose elements are code points (at most 0x10FFFF). *)
Definition is_text (s : str) : Prop := Forall (fun c => c < 1114112) s.

(** A string without surrogate code points: one UTF-8 can encode. *)
Definition encodable (s : str) : Prop :=
  Forall (fun c => is_surrogate c = false) s.

(** [p] occurs in [s]. *)
Definition occurs_in (p s : str) : Prop := exists a b, s = a ++ p ++ b.

(** [p] is a prefix of [s]. *)
Definition prefix_of (p s : str) : Prop := exists b, s = p ++ b.

End Spec.

(** ** Scenarios

    Endpoints, keys and forms used to run the program on concrete
    inputs. *)

Module Scenario.
Import Py Urllib App.

(** The body of a completion: the content of its first choice. *)
Definition response_body (response : chat_completion) : option str :=
  match choices response with
  | [] => None
  | c :: _ => message_content c
  end.

(** The resolver succeeded: it returned a string, not [None]. *)
Definition resolved {E} (m : io E (option str)) : bool :=
  match result m with
  | inr (Some _) => true
  | _ => false
  end.

(** An endpoint that answers every request with one choice of content
    [body]. *)
Definition answering (body : str) : endpoint :=
  fun _ => inr {| choices := [ {| message_content := Some body |} ] |}.

(** An endpoint on which every call raises [e]. *)
Definition failing_with (e : exn) : endpoint := fun _ => inl e.

(** A key that passes the resolver's check. *)
Definition project_key : str := lit "sk-proj-0123456789".

(** The form of the coffee scenario, submitted. *)
Definition coffee_form : form_state :=
  {| form_product_desc := lit "A coffee subscription box";
     form_customer_profile := lit "Urban millennials";
     form_submitted := true |}.

Definition coffee_topics : str :=
  lit "Coffee|Tea|Espresso|Beans|Roasting|Brewing|Fair_trade|Organic|Subscription|Gourmet".

(** The ten tokens of [coffee_topics]. *)
Definition coffee_tokens : list str :=
  [ lit "Coffee"; lit "Tea"; lit "Espresso"; lit "Beans"; lit "Roasting";
    lit "Brewing"; lit "Fair_trade"; lit "Organic"; lit "Subscription";
    lit "Gourmet" ].

(** The same tokens as they are displayed. *)
Definition coffee_readable : list str :=
  [ lit "Coffee"; lit "Tea"; lit "Espresso"; lit "Beans"; lit "Roasting";
    lit "Brewing"; lit "Fair trade"; lit "Organic"; lit "Subscription";
    lit "Gourmet" ].

(** Five topics, two of them with a space next to the pipe. *)
Definition spaced_topics : str := lit "Coffee | Tea|Espresso|Beans|Roasting".

(** Five segments, the first of which is a lone surrogate, U+D800. *)
Definition surrogate_topics : str := 55296 :: lit "||||".

(** An exception of the client library. *)
Definition connection_error : exn :=
  {| exn_class := "APIConnectionError"; exn_text := lit "Connection error." |}.

End Scenario.

(** ** Notions used to state properties *)

Module Notions.
Import Py Urllib App.

(** The number of occurrences of [c] in [s]. *)
Definition count_char (c : codepoint) (s : str) : nat :=
  count_occ N.eq_dec s c.

(** [s] neither starts nor ends with a whitespace character. *)
Definition trimmed (s : str) : Prop :=
  (forall c, hd_error s = Some c -> isspace c = false)
  /\ (forall c, hd_error (rev s) = Some c -> isspace c = false).

(** A visible ASCII character: 0x21 to 0x7E. *)
Definition visible_ascii (c : codepoint) : Prop := 33 <= c <= 126.

(** Every condition under which [main] calls the endpoint holds: the form
    is submitted, both fields are filled in and the key passes the check. *)
Definition gates_open (key : str) (form : form_state) : bool :=
  form_submitted form
  && truthy (form_product_desc form)
  && truthy (form_customer_profile form)
  && negb (key_rejected (Some key)).

(** The text of the user prompt between the two fields. *)
Definition prompt_between_fields : str := lit "

    **Ideal Customer Profile:**
    ".

End Notions.

(** * Properties *)

Import Py Urllib App Spec Scenario.

Ltac Zify.zify_post_hook ::= Z.to_euclidean_division_equations.

(** [Some a = Some b] gives [a = b], without reducing either side. *)
Ltac some_inj H :=
  match type of H with
  | Some ?a = Some ?b =>
      let E := fresh "E" in
      assert (E : a = b) by congruence; clear H; subst b
  end.

Ltac bytes_bound := repeat (apply Forall_cons; [lia|]); apply Forall_nil.

(** Settle each comparison of the goal by arithmetic. *)
Ltac settle_tests :=
  repeat match goal with
  | |- context [?a <? ?b] =>
      first [ replace (a <? b) with true by (symmetry; apply N.ltb_lt; lia)
            | replace (a <? b) with false by (symmetry; apply N.ltb_ge; lia) ]
  | |- context [?a <=? ?b] =>
      first [ replace (a <=? b) with true by (symmetry; apply N.leb_le; lia)
            | replace (a <=? b) with false by (symmetry; apply N.leb_gt; lia) ]
  end; cbn [andb].

Ltac decoded_is c :=
  match goal with
  | |- option_map (cons ?x) _ = _ => replace x with c by lia
  end; reflexivity.

(** ** Splitting, joining and stripping *)

Section StringFacts.

Lemma split_not_nil sep s : split sep s <> [].
Proof.
  destruct s as [|c s]; simpl; [discriminate|].
  destruct (c =? sep); [discriminate|].
  destruct (split sep s); discriminate.
Qed.

Lemma join_split sep s : join [sep] (split sep s) = s.
Proof.
  induction s as [|c s IH]; simpl; [reflexivity|].
  destruct (N.eqb_spec c sep) as [->|Hne].
  - pose proof (split_not_nil sep s) as Hn.
    destruct (split sep s) eqn:Hs; [congruence|]. simpl in *. now rewrite IH.
  - destruct (split sep s) as [|seg segs] eqn:Hs; [now destruct (split_not_nil sep s)|].
    simpl in *. destruct segs; simpl in *; now rewrite <- IH.
Qed.

Lemma split_app_sep sep p s :
  contains_char sep p = false ->
  split sep (p ++ sep :: s) = p :: split sep s.
Proof.
  induction p as [|c p IH]; simpl; intros H.
  - now rewrite N.eqb_refl.
  - apply orb_false_iff in H as [Hc Hp].
    rewrite N.eqb_sym in Hc. rewrite Hc, (IH Hp). reflexivity.
Qed.

Lemma split_no_sep sep p :
  contains_char sep p = false -> split sep p = [p].
Proof.
  induction p as [|c p IH]; simpl; intros H; [reflexivity|].
  apply orb_false_iff in H as [Hc Hp].
  rewrite N.eqb_sym in Hc. rewrite Hc, (IH Hp). reflexivity.
Qed.

Lemma split_join sep parts :
  parts <> [] ->
  Forall (fun p => contains_char sep p = false) parts ->
  split sep (join [sep] parts) = parts.
Proof.
  induction parts as [|p ps IH]; intros Hne Hall; [congruence|].
  inversion Hall as [|? ? Hp Hps]; subst.
  destruct ps as [|q ps].
  - simpl. now apply split_no_sep.
  - change (join [sep] (p :: q :: ps)) with (p ++ sep :: join [sep] (q :: ps)).
    rewrite split_app_sep by assumption.
    f_equal. apply IH; [discriminate|assumption].
Qed.

Lemma split_Forall (P : codepoint -> Prop) sep s :
  Forall P s -> Forall (Forall P) (split sep s).
Proof.
  induction 1 as [|c s Hc Hs IH]; simpl.
  - repeat constructor.
  - destruct (c =? sep); [constructor; [constructor|assumption]|].
    destruct (split sep s) as [|seg segs]; [repeat constructor; assumption|].
    inversion IH; subst. constructor; [constructor|]; assumption.
Qed.

Lemma lstrip_Forall (P : codepoint -> Prop) s :
  Forall P s -> Forall P (lstrip s).
Proof.
  induction 1 as [|c s Hc Hs IH]; simpl; [constructor|].
  destruct (isspace c); [assumption|constructor; assumption].
Qed.

Lemma strip_Forall (P : codepoint -> Prop) s :
  Forall P s -> Forall P (strip s).
Proof.
  intros H. unfold strip, rstrip.
  apply Forall_rev, lstrip_Forall, Forall_rev, lstrip_Forall, H.
Qed.

Lemma startswith_app p s : startswith p (p ++ s) = true.
Proof.
  induction p as [|c p IH]; simpl; [reflexivity|].
  now rewrite N.eqb_refl, IH.
Qed.

Lemma startswith_prefix p s : startswith p s = true <-> prefix_of p s.
Proof.
  revert s. induction p as [|a p IH]; intros s; simpl.
  - split; [intros _; now exists s|reflexivity].
  - destruct s as [|b s].
    + split; [discriminate|intros [r Hr]; discriminate].
    + rewrite andb_true_iff, N.eqb_eq, IH. split.
      * intros [-> [r ->]]. now exists r.
      * intros [r Hr]. injection Hr as -> ->. split; [reflexivity|now exists r].
Qed.

Lemma contains_occurs p s : contains p s = true <-> occurs_in p s.
Proof.
  induction s as [|c s IH]; simpl.
  - rewrite orb_false_r, startswith_prefix. split.
    + intros [b Hb]. exists [], b. exact Hb.
    + intros [a [b Hab]]. destruct a; [now exists b|discriminate].
  - rewrite orb_true_iff, startswith_prefix, IH. split.
    + intros [[b Hb]|[a [b Hab]]].
      * exists [], b. exact Hb.
      * exists (c :: a), b. simpl. now rewrite Hab.
    + intros [a [b Hab]]. destruct a as [|x a].
      * left. now exists b.
      * right. injection Hab as _ ->. now exists a, b.
Qed.

End StringFacts.

(** ** Percent-encoding and UTF-8 *)

Section QuoteFacts.

Lemma hex_value_digit n : n < 16 -> hex_value (hex_digit n) = Some n.
Proof.
  intros H. unfold hex_value, hex_digit.
  destruct (N.ltb_spec n 10); settle_tests; f_equal; lia.
Qed.

Lemma hex_digit_plain n :
  n < 16 -> hex_digit n <> PIPE /\ hex_digit n <> PERCENT /\ hex_digit n < 128.
Proof.
  intros H. unfold hex_digit, PIPE, PERCENT. destruct (N.ltb_spec n 10); lia.
Qed.

Lemma safe_plain b :
  is_safe b = true -> b <> PIPE /\ b <> PERCENT /\ b < 128.
Proof.
  unfold is_safe, PIPE, PERCENT.
  rewrite !orb_true_iff, !andb_true_iff, !N.leb_le, !N.eqb_eq. lia.
Qed.

Lemma quote_byte_no_pipe b :
  b < 256 -> contains_char PIPE (quote_byte b) = false.
Proof.
  intros Hb. unfold quote_byte. destruct (is_safe b) eqn:Hs.
  - apply safe_plain in Hs as [Hs _]. cbn [contains_char existsb].
    rewrite orb_false_r. apply N.eqb_neq. congruence.
  - unfold percent_escape. cbn [contains_char existsb].
    destruct (hex_digit_plain (b / 16)) as [H1 _]; [lia|].
    destruct (hex_digit_plain (b mod 16)) as [H2 _]; [lia|].
    apply not_eq_sym, N.eqb_neq in H1, H2.
    now rewrite H1, H2.
Qed.

Lemma contains_char_app c a b :
  contains_char c (a ++ b) = contains_char c a || contains_char c b.
Proof. apply existsb_app. Qed.

Lemma quote_from_bytes_no_pipe bs :
  Forall (fun b => b < 256) bs ->
  contains_char PIPE (quote_from_bytes bs) = false.
Proof.
  induction 1 as [|b bs Hb Hbs IH]; [reflexivity|].
  unfold quote_from_bytes in *. simpl.
  now rewrite contains_char_app, quote_byte_no_pipe, IH.
Qed.

Lemma percent_decode_quote_byte b rest :
  b < 256 ->
  percent_decode_bytes (quote_byte b ++ rest)
  = option_map (cons b) (percent_decode_bytes rest).
Proof.
  intros Hb. unfold quote_byte. destruct (is_safe b) eqn:Hs.
  - apply safe_plain in Hs as [_ [Hp Hlt]]. cbn [app percent_decode_bytes].
    apply N.eqb_neq in Hp. rewrite Hp.
    apply N.ltb_lt in Hlt. now rewrite Hlt.
  - unfold percent_escape.
    change (percent_decode_bytes
              (PERCENT :: hex_digit (b / 16) :: hex_digit (b mod 16) :: rest)
            = option_map (cons b) (percent_decode_bytes rest)).
    cbn [percent_decode_bytes]. rewrite N.eqb_refl.
    rewrite !hex_value_digit by lia.
    replace (16 * (b / 16) + b mod 16) with b by lia.
    now destruct (percent_decode_bytes rest).
Qed.

Lemma percent_decode_quote_bytes bs :
  Forall (fun b => b < 256) bs ->
  percent_decode_bytes (quote_from_bytes bs) = Some bs.
Proof.
  induction 1 as [|b bs Hb Hbs IH]; [reflexivity|].
  unfold quote_from_bytes in *. simpl.
  now rewrite percent_decode_quote_byte, IH.
Qed.

Lemma utf8_encode_cp_bytes c bs :
  c < 1114112 -> utf8_encode_cp c = Some bs -> Forall (fun b => b < 256) bs.
Proof.
  unfold utf8_encode_cp, is_surrogate. intros Hc H.
  destruct (N.ltb_spec c 128); [some_inj H; bytes_bound|].
  destruct (N.ltb_spec c 2048); [some_inj H; bytes_bound|].
  destruct ((55296 <=? c) && (c <=? 57343)); [discriminate|].
  destruct (N.ltb_spec c 65536); some_inj H; bytes_bound.
Qed.

Lemma utf8_encode_bytes s bs :
  is_text s -> utf8_encode s = Some bs -> Forall (fun b => b < 256) bs.
Proof.
  intros Hs. revert bs. induction Hs as [|c s Hc Hs IH]; simpl; intros bs H.
  - some_inj H. constructor.
  - destruct (utf8_encode_cp c) as [cb|] eqn:Hcb; [|discriminate].
    destruct (utf8_encode s) as [rest|]; [|discriminate].
    some_inj H. apply Forall_app. split.
    + eapply utf8_encode_cp_bytes; eassumption.
    + now apply IH.
Qed.

Lemma utf8_encode_total s :
  encodable s -> exists bs, utf8_encode s = Some bs.
Proof.
  induction 1 as [|c s Hc Hs [rest IH]]; simpl; [now exists []|].
  rewrite IH. unfold utf8_encode_cp. rewrite Hc.
  destruct (c <? 128); [eauto|]. destruct (c <? 2048); [eauto|].
  destruct (c <? 65536); eauto.
Qed.

Lemma utf8_decode_encode_cp c bs rest :
  c < 1114112 -> utf8_encode_cp c = Some bs ->
  utf8_decode (bs ++ rest) = option_map (cons c) (utf8_decode rest).
Proof.
  unfold utf8_encode_cp, is_surrogate. intros Hc H.
  destruct (N.ltb_spec c 128).
  { some_inj H. cbn [app utf8_decode]. settle_tests. reflexivity. }
  destruct (N.ltb_spec c 2048).
  { some_inj H. cbn [app utf8_decode]. unfold is_continuation.
    settle_tests. decoded_is c. }
  destruct ((55296 <=? c) && (c <=? 57343)); [discriminate|].
  destruct (N.ltb_spec c 65536).
  { some_inj H. cbn [app utf8_decode]. unfold is_continuation.
    settle_tests. decoded_is c. }
  some_inj H. cbn [app utf8_decode]. unfold is_continuation.
  settle_tests. decoded_is c.
Qed.

End QuoteFacts.

(** ** Encoding whole strings and page lists *)

Section QuoteStrings.

Lemma utf8_decode_encode s bs :
  is_text s -> utf8_encode s = Some bs -> utf8_decode bs = Some s.
Proof.
  intros Hs. revert bs. induction Hs as [|c s Hc Hs IH]; cbn [utf8_encode]; intros bs H.
  - some_inj H. reflexivity.
  - destruct (utf8_encode_cp c) as [cb|] eqn:Hcb; [|discriminate].
    destruct (utf8_encode s) as [rest|]; [|discriminate].
    some_inj H. rewrite (utf8_decode_encode_cp c cb rest Hc Hcb).
    now rewrite (IH rest eq_refl).
Qed.

Lemma quote_inv s e :
  quote s = Some e ->
  exists bs, utf8_encode s = Some bs /\ e = quote_from_bytes bs.
Proof.
  unfold quote. destruct (utf8_encode s) as [bs|]; [|discriminate].
  cbn [option_map]. intros H. some_inj H. now exists bs.
Qed.

Lemma percent_decode_quote s e :
  is_text s -> quote s = Some e -> percent_decode e = Some s.
Proof.
  intros Hs H. apply quote_inv in H as [bs [Hbs ->]].
  unfold percent_decode.
  rewrite percent_decode_quote_bytes by (eapply utf8_encode_bytes; eassumption).
  now apply utf8_decode_encode.
Qed.

Lemma quote_no_pipe s e :
  is_text s -> quote s = Some e -> contains_char PIPE e = false.
Proof.
  intros Hs H. apply quote_inv in H as [bs [Hbs ->]].
  apply quote_from_bytes_no_pipe. eapply utf8_encode_bytes; eassumption.
Qed.

Lemma quote_total s : encodable s -> exists e, quote s = Some e.
Proof.
  intros H. destruct (utf8_encode_total s H) as [bs Hbs].
  unfold quote. rewrite Hbs. now eexists.
Qed.

Lemma utf8_encode_cp_surrogate c :
  is_surrogate c = true -> utf8_encode_cp c = None.
Proof.
  intros Hc. unfold utf8_encode_cp. rewrite Hc.
  unfold is_surrogate in Hc. apply andb_true_iff in Hc as [H1 H2].
  apply N.leb_le in H1. settle_tests. reflexivity.
Qed.

(** [quote] raises exactly on the strings that hold a surrogate. *)
Lemma quote_defined_iff s : (exists e, quote s = Some e) <-> encodable s.
Proof.
  split; [|apply quote_total].
  intros [e He]. apply quote_inv in He as (bs & Hbs & _). revert bs Hbs.
  induction s as [|c s IH]; intros bs Hbs; [constructor|].
  cbn [utf8_encode] in Hbs.
  destruct (utf8_encode_cp c) as [cb|] eqn:Hc; [|discriminate].
  destruct (utf8_encode s) as [rest|]; [|discriminate].
  constructor; [|now apply (IH rest)].
  destruct (is_surrogate c) eqn:Hs; [|reflexivity].
  rewrite (utf8_encode_cp_surrogate c Hs) in Hc. discriminate.
Qed.

Lemma utf8_encode_app a b :
  utf8_encode (a ++ b)
  = match utf8_encode a, utf8_encode b with
    | Some x, Some y => Some (x ++ y)
    | _, _ => None
    end.
Proof.
  induction a as [|c a IH]; cbn [app utf8_encode].
  - now destruct (utf8_encode b).
  - rewrite IH. destruct (utf8_encode_cp c) as [cb|]; [|reflexivity].
    destruct (utf8_encode a) as [x|]; [|reflexivity].
    destruct (utf8_encode b) as [y|]; [|reflexivity].
    now rewrite app_assoc.
Qed.

(** A safe ASCII character is encoded as itself, wherever it stands. *)
Lemma quote_keeps_safe a c b e :
  is_safe c = true ->
  quote (a ++ c :: b) = Some e ->
  exists ea eb, quote a = Some ea /\ quote b = Some eb /\ e = ea ++ c :: eb.
Proof.
  intros Hc H. apply quote_inv in H as [bs [Hbs ->]].
  rewrite utf8_encode_app in Hbs. unfold quote.
  destruct (utf8_encode a) as [x|]; [|discriminate].
  change (c :: b) with ([c] ++ b) in Hbs. rewrite utf8_encode_app in Hbs.
  destruct (safe_plain c Hc) as [_ [_ Hlt]].
  assert (Hone : utf8_encode [c] = Some [c]).
  { cbn [utf8_encode]. unfold utf8_encode_cp. apply N.ltb_lt in Hlt. now rewrite Hlt. }
  rewrite Hone in Hbs.
  destruct (utf8_encode b) as [y|]; [|discriminate].
  some_inj Hbs. exists (quote_from_bytes x), (quote_from_bytes y).
  repeat split. unfold quote_from_bytes.
  rewrite !flat_map_app. cbn [flat_map]. unfold quote_byte at 2. rewrite Hc.
  now rewrite app_nil_r.
Qed.

End QuoteStrings.

Section Pages.

Lemma encoded_pages_each pages encs :
  encoded_pages pages = inr encs <->
  Forall2 (fun p e => quote (strip p) = Some e) pages encs.
Proof.
  revert encs. induction pages as [|p ps IH]; intros encs; cbn [encoded_pages].
  - split.
    + intros H. assert (encs = []) by congruence. subst. constructor.
    + intros H. inversion H. reflexivity.
  - destruct (quote (strip p)) as [e|] eqn:Hq.
    + destruct (encoded_pages ps) as [err|es] eqn:Hes.
      * split; [discriminate|]. intros H. inversion H as [|? ? ? ? _ Hrest]; subst.
        apply IH in Hrest. discriminate.
      * split.
        -- intros H. assert (encs = e :: es) by congruence. subst.
           constructor; [assumption|]. now apply IH.
        -- intros H. inversion H as [|? ? ? ? Hq' Hrest]; subst.
           apply IH in Hrest. congruence.
    + split; [discriminate|]. intros H. inversion H; subst. congruence.
Qed.

Lemma encoded_pages_total pages :
  Forall encodable pages -> exists encs, encoded_pages pages = inr encs.
Proof.
  induction 1 as [|p ps Hp Hps [es IH]]; cbn [encoded_pages]; [now eexists|].
  destruct (quote_total (strip p)) as [e He]; [now apply strip_Forall|].
  rewrite He, IH. now eexists.
Qed.

Lemma encoded_pages_decode pages encs :
  Forall is_text pages ->
  encoded_pages pages = inr encs ->
  decode_fields encs = Some (map strip pages).
Proof.
  intros Hall H. apply encoded_pages_each in H.
  induction H as [|p e ps es Hq Hrest IH]; [reflexivity|].
  inversion Hall as [|? ? Hp Hps]; subst.
  cbn [decode_fields map].
  rewrite (percent_decode_quote (strip p) e) by (try apply strip_Forall; assumption).
  now rewrite IH.
Qed.

Lemma encoded_pages_no_pipe pages encs :
  Forall is_text pages ->
  encoded_pages pages = inr encs ->
  Forall (fun e => contains_char PIPE e = false) encs.
Proof.
  intros Hall H. apply encoded_pages_each in H.
  induction H as [|p e ps es Hq Hrest IH]; [constructor|].
  inversion Hall as [|? ? Hp Hps]; subst.
  constructor; [|now apply IH].
  eapply quote_no_pipe; [|eassumption]. now apply strip_Forall.
Qed.

Lemma encoded_pages_not_nil pages encs :
  pages <> [] -> encoded_pages pages = inr encs -> encs <> [].
Proof.
  intros Hne H. apply encoded_pages_each in H. destruct H; congruence.
Qed.

End Pages.

(** ** The resolver and the form handler, case by case *)

Section Resolver.

Context {E : Type}.
Variable create : endpoint.
Variables product_desc customer_profile : str.

Let req := completion_request product_desc customer_profile.

Lemma first_content_of_body response body :
  response_body response = Some body ->
  first_content_stripped response = ([], inr (strip body)).
Proof.
  unfold response_body, first_content_stripped.
  destruct (choices response) as [|c cs]; [discriminate|].
  now intros ->.
Qed.

(** The [try] block when the endpoint raises. *)
Lemma resolver_try_raised e :
  create req = inl e ->
  resolver_try create product_desc customer_profile
  = ([CompletionsCreate req], inl e).
Proof.
  intros H. unfold resolver_try, completions_create, bind. fold req.
  now rewrite H.
Qed.

(** The [try] block when the endpoint answers with a body. *)
Lemma resolver_try_answered response body :
  create req = inr response ->
  response_body response = Some body ->
  resolver_try create product_desc customer_profile
  = ([CompletionsCreate req],
     if format_rejected (strip body)
     then inl format_error
     else inr (Some (strip body))).
Proof.
  intros H Hb. unfold resolver_try, completions_create, bind. fold req.
  rewrite H, (first_content_of_body _ _ Hb).
  now destruct (format_rejected (strip body)).
Qed.

(** The [try] block makes one request, whatever happens. *)
Lemma resolver_try_trace :
  trace (resolver_try create product_desc customer_profile)
  = [CompletionsCreate req].
Proof.
  unfold resolver_try, completions_create, bind, trace. fold req.
  destruct (create req) as [e|response]; [reflexivity|].
  unfold first_content_stripped.
  destruct (choices response) as [|c cs]; [reflexivity|].
  destruct (message_content c) as [body|]; [|reflexivity].
  unfold ret. cbv beta iota.
  now destruct (format_rejected (strip body)).
Qed.

(** What the [try] block returns, it returns for a well-formed body. *)
Lemma resolver_try_returned v :
  result (resolver_try create product_desc customer_profile) = inr v ->
  exists response body,
    create req = inr response /\ response_body response = Some body
    /\ format_rejected (strip body) = false /\ v = Some (strip body).
Proof.
  unfold resolver_try, completions_create, bind, result. fold req.
  destruct (create req) as [e|response] eqn:Hcreate; [discriminate|].
  unfold first_content_stripped.
  destruct (choices response) as [|c cs] eqn:Hchoices; [discriminate|].
  destruct (message_content c) as [body|] eqn:Hcontent; [|discriminate].
  unfold ret. cbv beta iota.
  destruct (format_rejected (strip body)) eqn:Hf; [discriminate|].
  cbn [app snd]. intros H. exists response, body.
  unfold response_body. rewrite Hchoices.
  repeat split; congruence.
Qed.

(** The exceptions the [try] block can raise: the endpoint's own, and
    the three of reading and validating the answer. *)
Lemma resolver_try_raises e :
  result (resolver_try create product_desc customer_profile) = inl e <->
  create req = inl e
  \/ exists response,
       create req = inr response
       /\ ((choices response = [] /\ e = index_error)
           \/ (exists c cs, choices response = c :: cs
                            /\ message_content c = None
                            /\ e = attribute_error)
           \/ (exists body, response_body response = Some body
                            /\ format_rejected (strip body) = true
                            /\ e = format_error)).
Proof.
  split.
  - unfold resolver_try, completions_create, bind, result. fold req.
    destruct (create req) as [e'|response] eqn:Hcreate.
    { cbn [snd]. intros H. left. congruence. }
    intros H. right. exists response. split; [reflexivity|]. revert H.
    unfold first_content_stripped, response_body.
    destruct (choices response) as [|c cs] eqn:Hchoices.
    { unfold raise. cbn [snd]. intros H. left. split; congruence. }
    destruct (message_content c) as [body|] eqn:Hcontent.
    + unfold ret. cbv beta iota.
      destruct (format_rejected (strip body)) eqn:Hf;
        unfold raise; cbn [app snd]; [|discriminate].
      intros H. right. right. exists body. repeat split; congruence.
    + unfold raise. cbn [snd]. intros H. right. left. exists c, cs.
      repeat split; congruence.
  - intros [H|(response & Hc & Hcases)].
    { now rewrite (resolver_try_raised _ H). }
    unfold resolver_try, completions_create, bind, result. fold req.
    rewrite Hc.
    destruct Hcases as [[Hn ->]|[(c & cs & Hch & Hnone & ->)|(b & Hb & Hrej & ->)]].
    + unfold first_content_stripped. rewrite Hn. reflexivity.
    + unfold first_content_stripped. rewrite Hch, Hnone. reflexivity.
    + rewrite (first_content_of_body _ _ Hb). cbv beta iota.
      rewrite Hrej. reflexivity.
Qed.

Lemma find_cases api_key :
  @find_relevant_wiki_pages E create api_key product_desc customer_profile =
  if key_rejected api_key then ([StError invalid_key_message], inr None)
  else match resolver_try create product_desc customer_profile with
       | (t, inl e) => (t ++ [StError (api_error_message e)], inr None)
       | (t, inr v) => (t, inr v)
       end.
Proof.
  unfold find_relevant_wiki_pages. destruct (key_rejected api_key); [reflexivity|].
  unfold try_except. destruct (resolver_try _ _ _) as [t [e|v]]; reflexivity.
Qed.

End Resolver.

Section Main.

Variable key : str.
Variable create : endpoint.
Variable form : form_state.

Let product_desc := form_product_desc form.
Let customer_profile := form_customer_profile form.

Lemma show_topics_cases s :
  show_topics s =
  match final_url s with
  | inl e => ([StSuccess success_text], inl e)
  | inr url => (topic_events url (split PIPE s), inr tt)
  end.
Proof.
  unfold show_topics, bind, emit. destruct (final_url s) as [e|url]; reflexivity.
Qed.

Lemma main_not_submitted :
  form_submitted form = false -> main key create form = (form_events, inr tt).
Proof. intros H. unfold main, bind, emit, ret. rewrite H. reflexivity. Qed.

Lemma main_missing_input :
  form_submitted form = true ->
  negb (truthy product_desc) || negb (truthy customer_profile) = true ->
  main key create form
  = (form_events ++ [StWarning missing_input_warning], inr tt).
Proof.
  intros H Hm. unfold main, bind, emit, ret. rewrite H.
  fold product_desc customer_profile. rewrite Hm. reflexivity.
Qed.

Lemma main_resolving :
  form_submitted form = true ->
  negb (truthy product_desc) || negb (truthy customer_profile) = false ->
  main key create form =
  let '(t, r) := @find_relevant_wiki_pages encode_error create (Some key)
                   product_desc customer_profile in
  let '(t', r') :=
    match r with
    | inl e => ([], inl e)
    | inr (Some s) => if truthy s then show_topics s else show_failure
    | inr None => show_failure
    end in
  (form_events ++ StSpinner spinner_text :: t ++ t', r').
Proof.
  intros H Hm. unfold main, bind, emit, ret. rewrite H.
  fold product_desc customer_profile. rewrite Hm.
  destruct (find_relevant_wiki_pages _ _ _ _) as [t [e|[s|]]]; cbv beta iota.
  - rewrite app_nil_r. reflexivity.
  - destruct (truthy s); [destruct (show_topics s) as [t' r']|]; reflexivity.
  - reflexivity.
Qed.

End Main.

(** ** The validation of the response and of the key *)

Section Validation.

Lemma format_rejected_false s :
  format_rejected s = false <->
  contains_char PIPE s = true /\ (5 <= List.length (split PIPE s))%nat.
Proof.
  unfold format_rejected.
  rewrite orb_false_iff, negb_false_iff, Nat.ltb_ge. reflexivity.
Qed.

Lemma five_segments_have_pipe s :
  (5 <= List.length (split PIPE s))%nat -> contains_char PIPE s = true.
Proof.
  intros H. destruct (contains_char PIPE s) eqn:Hc; [reflexivity|].
  rewrite (split_no_sep _ _ Hc) in H. cbn in H. lia.
Qed.

Lemma format_accepted_iff s :
  format_rejected s = false <-> (5 <= List.length (split PIPE s))%nat.
Proof.
  rewrite format_rejected_false. split; [tauto|].
  intros H. split; [now apply five_segments_have_pipe|assumption].
Qed.

Lemma format_accepted_truthy s : format_rejected s = false -> truthy s = true.
Proof.
  intros H. apply format_rejected_false in H as [H _].
  destruct s; [discriminate|reflexivity].
Qed.

Lemma contains_char_false c s :
  contains_char c s = false <-> Forall (fun x => x <> c) s.
Proof.
  unfold contains_char. induction s as [|x s IH]; cbn [existsb].
  - split; [constructor|reflexivity].
  - rewrite orb_false_iff, IH, N.eqb_neq. split.
    + intros [H1 H2]. constructor; [congruence|assumption].
    + intros H. inversion H; subst. split; [congruence|assumption].
Qed.

Lemma strip_no_char c s :
  contains_char c s = false -> contains_char c (strip s) = false.
Proof. rewrite !contains_char_false. apply strip_Forall. Qed.

Lemma truthy_nil s : truthy s = false <-> s = [].
Proof. destruct s; split; congruence || reflexivity || discriminate. Qed.

Lemma key_rejected_iff api_key :
  key_rejected api_key = true <->
  api_key = None \/ api_key = Some []
  \/ exists k, api_key = Some k /\ ~ occurs_in (lit "sk-proj") k.
Proof.
  unfold key_rejected. destruct api_key as [k|].
  - rewrite orb_true_iff, !negb_true_iff, truthy_nil.
    rewrite <- not_true_iff_false, contains_occurs. split.
    + intros [->|H]; [right; left; reflexivity|]. right; right. now exists k.
    + intros [H|[H|[k' [H Hn]]]]; [discriminate| |].
      * left. congruence.
      * right. congruence.
  - split; [now left|reflexivity].
Qed.

End Validation.

(** ** Building the link and reading it back *)

Section Links.

Lemma skipn_length_app (A : Type) (p s : list A) :
  skipn (List.length p) (p ++ s) = s.
Proof. induction p as [|x p IH]; [reflexivity|exact IH]. Qed.

Lemma pages_value_of_url v : pages_value (base_url ++ v) = Some v.
Proof.
  unfold pages_value. now rewrite startswith_app, skipn_length_app.
Qed.

(** What [final_url] returns is the base URL followed by the encoded pages
    joined with pipes. *)
Lemma final_url_inv s url :
  final_url s = inr url ->
  exists encs,
    encoded_pages (split PIPE s) = inr encs
    /\ url = base_url ++ join [PIPE] encs.
Proof.
  unfold final_url. destruct (encoded_pages (split PIPE s)) as [e|encs];
    [discriminate|].
  intros H. exists encs. split; [reflexivity|congruence].
Qed.

Lemma final_url_total s :
  encodable s -> exists url, final_url s = inr url.
Proof.
  intros H. unfold final_url.
  destruct (encoded_pages_total (split PIPE s)) as [encs ->];
    [now apply split_Forall|].
  now eexists.
Qed.

(** Reading back the URL of a text gives its segments, each stripped. *)
Lemma pages_of_final_url s url :
  is_text s -> final_url s = inr url ->
  startswith base_url url = true
  /\ pages_of_url url = Some (map strip (split PIPE s)).
Proof.
  intros Hs H. apply final_url_inv in H as (encs & Henc & ->).
  assert (Hsegs : Forall is_text (split PIPE s)) by now apply split_Forall.
  split; [apply startswith_app|].
  unfold pages_of_url. rewrite pages_value_of_url, split_join.
  - now apply encoded_pages_decode.
  - eapply encoded_pages_not_nil; [apply split_not_nil|eassumption].
  - now apply encoded_pages_no_pipe with (pages := split PIPE s).
Qed.

(** The run of a submitted, filled-in form whose resolver call is answered
    with a well-formed body. *)
Lemma main_answered key create form response body :
  form_submitted form = true ->
  form_product_desc form <> [] ->
  form_customer_profile form <> [] ->
  key_rejected (Some key) = false ->
  create (completion_request (form_product_desc form)
            (form_customer_profile form)) = inr response ->
  response_body response = Some body ->
  format_rejected (strip body) = false ->
  main key create form =
  match final_url (strip body) with
  | inl e =>
      (form_events
       ++ [StSpinner spinner_text;
           CompletionsCreate
             (completion_request (form_product_desc form)
                (form_customer_profile form));
           StSuccess success_text], inl e)
  | inr url =>
      (form_events
       ++ [StSpinner spinner_text;
           CompletionsCreate
             (completion_request (form_product_desc form)
                (form_customer_profile form))]
       ++ topic_events url (split PIPE (strip body)), inr tt)
  end.
Proof.
  intros Hsub Hp Hc Hkey Hcreate Hbody Hformat.
  rewrite main_resolving; [|assumption|].
  - rewrite find_cases, Hkey.
    rewrite (resolver_try_answered _ _ _ _ _ Hcreate Hbody), Hformat.
    rewrite (format_accepted_truthy _ Hformat), show_topics_cases.
    destruct (final_url (strip body)); reflexivity.
  - apply orb_false_iff. rewrite !negb_false_iff.
    destruct (form_product_desc form), (form_customer_profile form);
      try congruence. split; reflexivity.
Qed.

End Links.

(** ** What stripping removes *)

Import Notions.

Section Stripping.

Lemma lstrip_head s c :
  hd_error (lstrip s) = Some c -> isspace c = false.
Proof.
  induction s as [|x s IH]; cbn [lstrip]; [discriminate|].
  destruct (isspace x) eqn:Hx; [exact IH|].
  cbn [hd_error]. intros H. congruence.
Qed.

(** Stripping on the left keeps a last character that is not a space. *)
Lemma lstrip_keeps_last a c :
  isspace c = false -> exists u, lstrip (a ++ [c]) = u ++ [c].
Proof.
  intros Hc. induction a as [|x a [u IH]]; cbn [app lstrip].
  - rewrite Hc. now exists [].
  - destruct (isspace x); [now exists u|now exists (x :: a)].
Qed.

Lemma rstrip_head s c :
  hd_error s = Some c -> isspace c = false -> hd_error (rstrip s) = Some c.
Proof.
  destruct s as [|x s]; [discriminate|]. cbn [hd_error]. intros H Hc.
  assert (x = c) by congruence. subst x.
  unfold rstrip. cbn [rev].
  destruct (lstrip_keeps_last (rev s) c Hc) as [u ->].
  now rewrite rev_app_distr.
Qed.

Lemma strip_trimmed s : trimmed (strip s).
Proof.
  unfold trimmed, strip. split; intros c H.
  - destruct (lstrip s) as [|x t] eqn:Hl; [discriminate|].
    assert (Hx : isspace x = false) by (apply (lstrip_head s); now rewrite Hl).
    rewrite (rstrip_head (x :: t) x eq_refl Hx) in H. congruence.
  - unfold rstrip in H. rewrite rev_involutive in H.
    now apply lstrip_head in H.
Qed.

Lemma lstrip_fixed s :
  (forall c, hd_error s = Some c -> isspace c = false) -> lstrip s = s.
Proof.
  destruct s as [|x s]; [reflexivity|]. intros H. cbn [lstrip].
  now rewrite (H x eq_refl).
Qed.

Lemma trimmed_strip s : trimmed s -> strip s = s.
Proof.
  intros [Hfirst Hlast]. unfold strip, rstrip.
  rewrite (lstrip_fixed s Hfirst), (lstrip_fixed (rev s) Hlast).
  apply rev_involutive.
Qed.

Lemma strip_fixed_iff s : strip s = s <-> trimmed s.
Proof.
  split; [intros <-; apply strip_trimmed|apply trimmed_strip].
Qed.

Lemma lstrip_decompose s :
  exists a, s = a ++ lstrip s /\ Forall (fun c => isspace c = true) a.
Proof.
  induction s as [|c s (a & Ha & Hsp)]; cbn [lstrip].
  - exists []. split; [reflexivity|constructor].
  - destruct (isspace c) eqn:Hc.
    + exists (c :: a). split; [cbn [app]; now rewrite <- Ha|].
      constructor; assumption.
    + exists []. split; [reflexivity|constructor].
Qed.

Lemma strip_decompose s :
  exists a b,
    s = a ++ strip s ++ b
    /\ Forall (fun c => isspace c = true) a
    /\ Forall (fun c => isspace c = true) b.
Proof.
  destruct (lstrip_decompose s) as (a & Ha & Hsa).
  destruct (lstrip_decompose (rev (lstrip s))) as (b & Hb & Hsb).
  exists a, (rev b). split; [|split; [assumption|now apply Forall_rev]].
  unfold strip, rstrip. rewrite <- rev_app_distr, <- Hb, rev_involutive.
  exact Ha.
Qed.

End Stripping.

(** * The claims *)

(** C1, as stated, fails: each segment is stripped before it is encoded,
    so the URL does not carry the raw segments.  The body
    [Coffee | Tea|Espresso|Beans|Roasting] splits into segments the first
    two of which end and start with a space; the URL reads back without
    them. *)
Lemma raw_segments_are_not_recovered :
  let m := main project_key (answering spaced_topics) coffee_form in
  split PIPE (strip spaced_topics)
  = [lit "Coffee "; lit " Tea"; lit "Espresso"; lit "Beans"; lit "Roasting"]
  /\ link_urls (trace m)
     = [base_url ++ lit "Coffee|Tea|Espresso|Beans|Roasting"]
  /\ pages_of_url (base_url ++ lit "Coffee|Tea|Espresso|Beans|Roasting")
     = Some [lit "Coffee"; lit "Tea"; lit "Espresso"; lit "Beans";
             lit "Roasting"]
  /\ pages_of_url (base_url ++ lit "Coffee|Tea|Espresso|Beans|Roasting")
     <> Some (split PIPE (strip spaced_topics)).
Proof.
  intros m. split; [reflexivity|]. split; [reflexivity|].
  split; [reflexivity|]. vm_compute. discriminate.
Qed.

(** C1, amended.  For a submitted form with both fields filled in and a
    body of at least five segments, every link the run shows starts with
    the base URL, and its [pages] value, split on the pipes and
    percent-decoded, gives the segments of the stripped body, each with its
    own surrounding whitespace stripped.  The link is shown whenever the
    body holds no surrogate code point. *)
Theorem trend_url_round_trip :
  forall (key : str) (create : endpoint) (form : form_state)
         (response : chat_completion) (body : str),
    form_submitted form = true ->
    form_product_desc form <> [] ->
    form_customer_profile form <> [] ->
    key_rejected (Some key) = false ->
    create (completion_request (form_product_desc form)
              (form_customer_profile form)) = inr response ->
    response_body response = Some body ->
    is_text body ->
    (5 <= List.length (split PIPE (strip body)))%nat ->
    let m := main key create form in
    (forall url, In url (link_urls (trace m)) ->
       startswith base_url url = true
       /\ pages_of_url url = Some (map strip (split PIPE (strip body))))
    /\ (encodable body -> exists url, link_urls (trace m) = [url]).
Proof.
  intros key create form response body Hsub Hp Hc Hkey Hcreate Hbody
    Htext Hlen m.
  apply format_accepted_iff in Hlen.
  subst m. rewrite (main_answered _ _ _ _ _ Hsub Hp Hc Hkey Hcreate Hbody Hlen).
  destruct (final_url (strip body)) as [e|url] eqn:Hurl.
  - split; [intros url []|].
    intros Henc. destruct (final_url_total (strip body)) as [url Hu];
      [now apply strip_Forall|congruence].
  - split; [|intros _; now exists url].
    intros u [<-|[]]. apply pages_of_final_url; [|assumption].
    now apply strip_Forall.
Qed.

Lemma trend_url_round_trip_witness :
  let m := main project_key (answering spaced_topics) coffee_form in
  exists url,
    link_urls (trace m) = [url]
    /\ pages_of_url url
       = Some [lit "Coffee"; lit "Tea"; lit "Espresso"; lit "Beans";
               lit "Roasting"].
Proof.
  intros m.
  assert (Htext : is_text spaced_topics) by (repeat constructor).
  assert (Henc : encodable spaced_topics) by (repeat constructor).
  assert (Hlen : (5 <= List.length (split PIPE (strip spaced_topics)))%nat)
    by (vm_compute; lia).
  destruct (trend_url_round_trip project_key (answering spaced_topics)
              coffee_form
              {| choices := [ {| message_content := Some spaced_topics |} ] |}
              spaced_topics eq_refl
              ltac:(discriminate) ltac:(discriminate)
              eq_refl eq_refl eq_refl Htext Hlen) as [Hsafe Hlive].
  destruct (Hlive Henc) as [url Hurl]. exists url. split; [exact Hurl|].
  destruct (Hsafe url) as [_ Hpages]; [rewrite Hurl; now left|].
  exact Hpages.
Defined.

(** C2.  When the endpoint returns a body, the resolver succeeds if and
    only if the stripped body contains a pipe and splits on it into at
    least five segments; it then returns the stripped body.  Otherwise it
    reports the error and returns [None].  Either way it sends exactly one
    request.  A body of three segments, [A|B|C], fails; one of five,
    [A|B|C|D|E], succeeds. *)
Theorem resolver_succeeds_iff_five_segments :
  forall (E : Type) (create : endpoint) (key product_desc customer_profile : str)
         (response : chat_completion) (body : str),
    key_rejected (Some key) = false ->
    create (completion_request product_desc customer_profile) = inr response ->
    response_body response = Some body ->
    let m := @find_relevant_wiki_pages E create (Some key)
               product_desc customer_profile in
    let s := strip body in
    (resolved m = true <->
       contains_char PIPE s = true /\ (5 <= List.length (split PIPE s))%nat)
    /\ (resolved m = true -> result m = inr (Some s) /\ errors (trace m) = [])
    /\ (resolved m = false ->
        result m = inr None
        /\ errors (trace m) = [api_error_message format_error])
    /\ requests (trace m) = [completion_request product_desc customer_profile]
    /\ (body = lit "A|B|C" -> resolved m = false)
    /\ (body = lit "A|B|C|D|E" -> resolved m = true).
Proof.
  intros E create key pd cp response body Hkey Hcreate Hbody m s.
  assert (Hm : m = ([CompletionsCreate (completion_request pd cp)]
                    ++ (if format_rejected s
                        then [StError (api_error_message format_error)]
                        else []),
                    inr (if format_rejected s then None else Some s))).
  { subst m. rewrite find_cases, Hkey.
    rewrite (resolver_try_answered create pd cp response body Hcreate Hbody).
    fold s. destruct (format_rejected s); [reflexivity|].
    now rewrite app_nil_r. }
  assert (Hres : resolved m = negb (format_rejected s)).
  { rewrite Hm. unfold resolved, result. cbn [snd].
    now destruct (format_rejected s). }
  rewrite Hres, negb_true_iff, negb_false_iff.
  split; [apply format_rejected_false|].
  split; [intros Hf; rewrite Hm, Hf; split; reflexivity|].
  split; [intros Hf; rewrite Hm, Hf; split; reflexivity|].
  split; [rewrite Hm; now destruct (format_rejected s)|].
  split; intros ->; subst s; vm_compute; reflexivity.
Qed.

Lemma resolver_succeeds_iff_five_segments_witness :
  key_rejected (Some project_key) = false
  /\ resolved (@find_relevant_wiki_pages unit (answering (lit "A|B|C|D|E"))
                 (Some project_key) (lit "coffee") (lit "students")) = true.
Proof.
  split; [reflexivity|].
  apply (resolver_succeeds_iff_five_segments unit
           (answering (lit "A|B|C|D|E")) project_key
           (lit "coffee") (lit "students")
           {| choices := [ {| message_content := Some (lit "A|B|C|D|E") |} ] |}
           (lit "A|B|C|D|E")); reflexivity.
Defined.

(** C3.  When the endpoint's body contains no pipe, the link-building
    branch is never entered: the trace holds no success message, no link
    button and no written topic.  For a submitted form with both fields
    filled in, the run shows the resolver's error followed by the failure
    message. *)
Theorem no_pipe_builds_no_link :
  forall (key : str) (create : endpoint) (form : form_state)
         (response : chat_completion) (body : str),
    create (completion_request (form_product_desc form)
                               (form_customer_profile form)) = inr response ->
    response_body response = Some body ->
    contains_char PIPE body = false ->
    let m := main key create form in
    link_urls (trace m) = []
    /\ successes (trace m) = []
    /\ written (trace m) = []
    /\ (form_submitted form = true ->
        form_product_desc form <> [] ->
        form_customer_profile form <> [] ->
        result m = inr tt
        /\ errors (trace m)
           = [ if key_rejected (Some key) then invalid_key_message
               else api_error_message format_error;
               failure_text ]).
Proof.
  intros key create form response body Hcreate Hbody Hpipe m.
  destruct (form_submitted form) eqn:Hsub.
  2:{ subst m. rewrite main_not_submitted by assumption.
      repeat split; discriminate. }
  destruct (negb (truthy (form_product_desc form))
            || negb (truthy (form_customer_profile form))) eqn:Hfields.
  { subst m. rewrite main_missing_input by assumption.
    do 3 (split; [reflexivity|]). intros _ Hp Hc.
    apply orb_true_iff in Hfields.
    rewrite !negb_true_iff, !truthy_nil in Hfields. tauto. }
  assert (Hrej : format_rejected (strip body) = true).
  { unfold format_rejected. now rewrite strip_no_char. }
  assert (Hm : m = (form_events ++ StSpinner spinner_text
                    :: (if key_rejected (Some key)
                        then [StError invalid_key_message]
                        else [CompletionsCreate
                                (completion_request (form_product_desc form)
                                   (form_customer_profile form));
                              StError (api_error_message format_error)])
                    ++ [StError failure_text], inr tt)).
  { subst m. rewrite main_resolving by assumption.
    rewrite find_cases. destruct (key_rejected (Some key)); [reflexivity|].
    rewrite (resolver_try_answered _ _ _ _ _ Hcreate Hbody), Hrej.
    reflexivity. }
  rewrite Hm. destruct (key_rejected (Some key)); repeat split.
Qed.

Lemma no_pipe_builds_no_link_witness :
  let m := main project_key (answering (lit "Coffee, Tea, Espresso"))
             coffee_form in
  contains_char PIPE (lit "Coffee, Tea, Espresso") = false
  /\ link_urls (trace m) = []
  /\ In failure_text (errors (trace m)).
Proof.
  intros m.
  destruct (no_pipe_builds_no_link project_key
              (answering (lit "Coffee, Tea, Espresso")) coffee_form
              {| choices :=
                   [ {| message_content := Some (lit "Coffee, Tea, Espresso") |} ] |}
              (lit "Coffee, Tea, Espresso") eq_refl eq_refl eq_refl)
    as (Hl & _ & _ & He).
  split; [reflexivity|]. split; [exact Hl|].
  destruct He as [_ He]; [reflexivity|discriminate|discriminate|].
  fold m in He. rewrite He. right. left. reflexivity.
Defined.

(** C4.  A submission in which the product description or the customer
    profile is empty shows the warning and does nothing else: no request is
    sent to the completion endpoint, no error is shown, and the run ends
    normally with the form rendered. *)
Theorem missing_input_warns_without_request :
  forall (key : str) (create : endpoint) (form : form_state),
    form_submitted form = true ->
    form_product_desc form = [] \/ form_customer_profile form = [] ->
    let m := main key create form in
    trace m = form_events ++ [StWarning missing_input_warning]
    /\ result m = inr tt
    /\ warnings (trace m) = [missing_input_warning]
    /\ requests (trace m) = []
    /\ errors (trace m) = []
    /\ link_urls (trace m) = [].
Proof.
  intros key create form Hsub Hempty m. subst m.
  rewrite main_missing_input; [repeat split|assumption|].
  destruct Hempty as [-> | ->]; [reflexivity|apply orb_true_r].
Qed.

Lemma missing_input_warns_without_request_witness :
  let form := {| form_product_desc := [];
                 form_customer_profile := lit "Urban millennials";
                 form_submitted := true |} in
  let m := main project_key (answering coffee_topics) form in
  warnings (trace m) = [missing_input_warning] /\ requests (trace m) = [].
Proof.
  intros form m.
  destruct (missing_input_warns_without_request project_key
              (answering coffee_topics) form eq_refl (or_introl eq_refl))
    as (_ & _ & Hw & Hr & _).
  split; assumption.
Defined.

(** C5, as stated, fails: the key check looks for [sk-proj] anywhere in
    the key, it is not a prefix check.  The key [my-sk-proj-key] does not
    start with [sk-proj], yet it passes and the request is sent. *)
Lemma key_without_prefix_is_accepted :
  ~ prefix_of (lit "sk-proj") (lit "my-sk-proj-key")
  /\ requests (trace (@find_relevant_wiki_pages unit (answering coffee_topics)
                        (Some (lit "my-sk-proj-key"))
                        (lit "A coffee subscription box")
                        (lit "Urban millennials")))
     = [completion_request (lit "A coffee subscription box")
                           (lit "Urban millennials")].
Proof.
  split; [|reflexivity].
  rewrite <- startswith_prefix. vm_compute. discriminate.
Qed.

(** C5, amended.  When the key is absent ([None] or empty) or does not
    contain [sk-proj] anywhere, the resolver shows the invalid-key error,
    returns [None] and sends no request. *)
Theorem rejected_key_stops_resolver :
  forall (E : Type) (create : endpoint) (api_key : option str)
         (product_desc customer_profile : str),
    (api_key = None \/ api_key = Some []
     \/ exists k, api_key = Some k /\ ~ occurs_in (lit "sk-proj") k) ->
    let m := @find_relevant_wiki_pages E create api_key
               product_desc customer_profile in
    trace m = [StError invalid_key_message]
    /\ result m = inr None
    /\ requests (trace m) = [].
Proof.
  intros E create api_key pd cp Hkey m. subst m.
  apply key_rejected_iff in Hkey. rewrite find_cases, Hkey.
  repeat split.
Qed.

Lemma rejected_key_stops_resolver_witness :
  let m := @find_relevant_wiki_pages unit (answering coffee_topics)
             (Some (lit "sk-live-0123456789"))
             (lit "A coffee subscription box") (lit "Urban millennials") in
  result m = inr None /\ requests (trace m) = [].
Proof.
  intros m.
  assert (Hkey : ~ occurs_in (lit "sk-proj") (lit "sk-live-0123456789")).
  { rewrite <- contains_occurs. vm_compute. discriminate. }
  destruct (rejected_key_stops_resolver unit (answering coffee_topics)
              (Some (lit "sk-live-0123456789"))
              (lit "A coffee subscription box") (lit "Urban millennials")
              (or_intror (or_intror
                 (ex_intro _ (lit "sk-live-0123456789") (conj eq_refl Hkey)))))
    as (_ & Hr & Hq).
  split; assumption.
Defined.

(** C6.  When the endpoint answers
    [Coffee|Tea|Espresso|Beans|Roasting|Brewing|Fair_trade|Organic|Subscription|Gourmet]
    to a submitted form with both fields filled in, the link is the base
    URL followed by the ten tokens, each percent-encoded, joined with pipes
    in that order; the topics displayed are the ten tokens with their
    underscores replaced by spaces, in the same order. *)
Theorem coffee_scenario :
  forall (key : str) (create : endpoint) (form : form_state)
         (response : chat_completion),
    form_submitted form = true ->
    form_product_desc form <> [] ->
    form_customer_profile form <> [] ->
    key_rejected (Some key) = false ->
    create (completion_request (form_product_desc form)
              (form_customer_profile form)) = inr response ->
    response_body response = Some coffee_topics ->
    let m := main key create form in
    split PIPE coffee_topics = coffee_tokens
    /\ map quote coffee_tokens = map Some coffee_tokens
    /\ link_urls (trace m) = [base_url ++ join [PIPE] coffee_tokens]
    /\ base_url ++ join [PIPE] coffee_tokens = base_url ++ coffee_topics
    /\ readable_pages coffee_tokens = coffee_readable
    /\ written (trace m)
       = [bullet ++ join (NEWLINE :: bullet) coffee_readable]
    /\ result m = inr tt.
Proof.
  intros key create form response Hsub Hp Hc Hkey Hcreate Hbody m.
  assert (Hstrip : strip coffee_topics = coffee_topics) by reflexivity.
  assert (Hformat : format_rejected (strip coffee_topics) = false)
    by reflexivity.
  assert (Hurl : final_url (strip coffee_topics)
                 = inr (base_url ++ join [PIPE] coffee_tokens))
    by (vm_compute; reflexivity).
  subst m.
  rewrite (main_answered _ _ _ _ _ Hsub Hp Hc Hkey Hcreate Hbody Hformat).
  rewrite Hurl, Hstrip.
  split; [reflexivity|]. split; [vm_compute; reflexivity|].
  split; [reflexivity|]. split; [reflexivity|]. split; [reflexivity|].
  split; reflexivity.
Qed.

Lemma coffee_scenario_witness :
  let m := main project_key (answering coffee_topics) coffee_form in
  link_urls (trace m) = [base_url ++ coffee_topics]
  /\ written (trace m) = [bullet ++ join (NEWLINE :: bullet) coffee_readable].
Proof.
  intros m.
  destruct (coffee_scenario project_key (answering coffee_topics) coffee_form
              {| choices := [ {| message_content := Some coffee_topics |} ] |}
              eq_refl ltac:(discriminate) ltac:(discriminate)
              eq_refl eq_refl eq_refl)
    as (_ & _ & Hl & Hj & _ & Hw & _).
  split; [|exact Hw]. fold m in Hl. rewrite Hl, Hj. reflexivity.
Defined.

(** C7.  Each token is percent-encoded on its own and the pipes are added
    afterwards.  [Zero-waste_movement] is encoded as itself; an underscore
    or a hyphen stays where it is, unescaped, in the encoding of any token;
    the encoding of a token holds no pipe; and the encoded tokens joined
    with pipes split again, at the raw pipes, into exactly the encoded
    tokens, so the separators are the only pipes and none is escaped. *)
Theorem tokens_are_encoded_before_joining :
  quote (lit "Zero-waste_movement") = Some (lit "Zero-waste_movement")
  /\ (forall (a b e : str) (c : codepoint),
        c = UNDERSCORE \/ c = HYPHEN ->
        quote (a ++ c :: b) = Some e ->
        exists ea eb,
          quote a = Some ea /\ quote b = Some eb /\ e = ea ++ c :: eb)
  /\ (forall t e : str,
        is_text t -> quote t = Some e -> contains_char PIPE e = false)
  /\ (forall (pages encs : list str),
        Forall is_text pages -> pages <> [] ->
        encoded_pages pages = inr encs ->
        Forall2 (fun p e => quote (strip p) = Some e) pages encs
        /\ split PIPE (join [PIPE] encs) = encs)
  /\ (forall s url : str,
        is_text s -> final_url s = inr url ->
        exists encs,
          Forall2 (fun p e => quote (strip p) = Some e) (split PIPE s) encs
          /\ url = base_url ++ join [PIPE] encs
          /\ split PIPE (join [PIPE] encs) = encs).
Proof.
  split; [reflexivity|].
  split.
  { intros a b e c Hc. apply quote_keeps_safe.
    destruct Hc as [-> | ->]; reflexivity. }
  split; [exact quote_no_pipe|].
  assert (Hpages : forall pages encs,
             Forall is_text pages -> pages <> [] ->
             encoded_pages pages = inr encs ->
             Forall2 (fun p e => quote (strip p) = Some e) pages encs
             /\ split PIPE (join [PIPE] encs) = encs).
  { intros pages encs Htext Hne Henc. split; [now apply encoded_pages_each|].
    apply split_join.
    - now apply encoded_pages_not_nil with (pages := pages).
    - now apply encoded_pages_no_pipe with (pages := pages). }
  split; [exact Hpages|].
  intros s url Hs Hurl. apply final_url_inv in Hurl as (encs & Henc & ->).
  exists encs.
  destruct (Hpages (split PIPE s) encs) as [Heach Hsplit];
    [now apply split_Forall|apply split_not_nil|assumption|].
  repeat split; assumption.
Qed.

Lemma tokens_are_encoded_before_joining_witness :
  contains_char PIPE (lit "Zero-waste_movement") = false
  /\ split PIPE (join [PIPE] [lit "Zero-waste_movement"; lit "Caf%C3%A9"])
     = [lit "Zero-waste_movement"; lit "Caf%C3%A9"].
Proof.
  destruct tokens_are_encoded_before_joining as (_ & _ & Hpipe & Hpages & _).
  split.
  - apply (Hpipe (lit "Zero-waste_movement")); [repeat constructor|reflexivity].
  - apply (Hpages [lit "Zero-waste_movement"; lit "Caf" ++ [233]]);
      [repeat constructor|discriminate|reflexivity].
Defined.

(** C8.  An exception raised in the [try] block, by the completion call or
    by the validation of the response, is caught.  The resolver calls the
    endpoint once, shows one error, which reads
    [An error occurred while contacting the OpenAI API: ] followed by the
    exception's own text, unchanged, and returns [None]; it does nothing
    else.  The form handler then shows the failure message, the same for
    every such exception, and the run ends there: no second call, no link
    and no topic. *)
Theorem exception_is_reported_once :
  forall (key : str) (create : endpoint) (form : form_state) (e : exn),
    let product_desc := form_product_desc form in
    let customer_profile := form_customer_profile form in
    key_rejected (Some key) = false ->
    result (resolver_try create product_desc customer_profile) = inl e ->
    let r := @find_relevant_wiki_pages encode_error create (Some key)
               product_desc customer_profile in
    let shown :=
      lit "An error occurred while contacting the OpenAI API: "
      ++ exn_text e in
    (trace r = [CompletionsCreate
                  (completion_request product_desc customer_profile);
                StError shown]
     /\ result r = inr None)
    /\ (form_submitted form = true ->
        product_desc <> [] -> customer_profile <> [] ->
        let m := main key create form in
        result m = inr tt
        /\ trace m
           = form_events
             ++ [StSpinner spinner_text;
                 CompletionsCreate
                   (completion_request product_desc customer_profile);
                 StError shown;
                 StError failure_text]
        /\ errors (trace m) = [shown; failure_text]
        /\ requests (trace m)
           = [completion_request product_desc customer_profile]
        /\ link_urls (trace m) = []
        /\ written (trace m) = []).
Proof.
  intros key create form e pd cp Hkey Hraise r shown.
  assert (Hshown : api_error_message e = shown) by reflexivity.
  assert (Hr : r = ([CompletionsCreate (completion_request pd cp);
                     StError shown], inr None)).
  { subst r. rewrite find_cases, Hkey.
    pose proof (resolver_try_trace create pd cp) as Ht.
    destruct (resolver_try create pd cp) as [t [e'|v]]; [|discriminate].
    unfold trace, result in *. cbn [fst snd] in *.
    rewrite Ht. assert (e' = e) by congruence. subst e'.
    rewrite Hshown. reflexivity. }
  split; [rewrite Hr; split; reflexivity|].
  intros Hsub Hp Hc m. subst m.
  rewrite main_resolving.
  - fold pd cp. fold r. rewrite Hr. repeat split.
  - assumption.
  - apply orb_false_iff. rewrite !negb_false_iff.
    fold pd cp. destruct pd, cp; try congruence. split; reflexivity.
Qed.

Lemma exception_is_reported_once_witness :
  let m := main project_key (failing_with connection_error) coffee_form in
  exn_text connection_error = lit "Connection error."
  /\ errors (trace m)
     = [lit "An error occurred while contacting the OpenAI API: Connection error.";
        failure_text]
  /\ List.length (requests (trace m)) = 1%nat
  /\ link_urls (trace m) = [].
Proof.
  intros m.
  destruct (exception_is_reported_once project_key
              (failing_with connection_error) coffee_form connection_error
              eq_refl eq_refl) as [_ Hmain].
  destruct Hmain as (_ & _ & He & Hq & Hl & _);
    [reflexivity|discriminate|discriminate|].
  fold m in He, Hq, Hl. rewrite He, Hq, Hl. repeat split.
Defined.

(** C9, as stated, fails: a body of five segments one of which holds a
    surrogate code point passes the resolver, but [quote] refuses it, the
    run stops after the success message and no link is shown. *)
Lemma lone_surrogate_builds_no_link :
  let r := @find_relevant_wiki_pages encode_error (answering surrogate_topics)
             (Some project_key) (form_product_desc coffee_form)
             (form_customer_profile coffee_form) in
  let m := main project_key (answering surrogate_topics) coffee_form in
  List.length (split PIPE (strip surrogate_topics)) = 5%nat
  /\ result r = inr (Some surrogate_topics)
  /\ result m = inl (UnicodeEncodeError [55296])
  /\ link_urls (trace m) = [].
Proof. repeat split. Qed.

(** C9, amended.  For a submitted form with both fields filled in, a body
    without surrogate code points that splits into at least five segments
    always gives a link, whatever the segments are: the run ends normally,
    shows no error and shows the one link built from the segments.  Four
    pipes in a row, five empty segments, give the base URL followed by four
    pipes. *)
Theorem five_segments_suffice :
  forall (key : str) (create : endpoint) (form : form_state)
         (response : chat_completion) (body : str),
    form_submitted form = true ->
    form_product_desc form <> [] ->
    form_customer_profile form <> [] ->
    key_rejected (Some key) = false ->
    create (completion_request (form_product_desc form)
              (form_customer_profile form)) = inr response ->
    response_body response = Some body ->
    encodable body ->
    (5 <= List.length (split PIPE (strip body)))%nat ->
    let m := main key create form in
    (exists url,
       final_url (strip body) = inr url
       /\ link_urls (trace m) = [url]
       /\ errors (trace m) = []
       /\ result m = inr tt)
    /\ (body = lit "||||" ->
        split PIPE (strip body) = [[]; []; []; []; []]
        /\ link_urls (trace m) = [base_url ++ lit "||||"]).
Proof.
  intros key create form response body Hsub Hp Hc Hkey Hcreate Hbody
    Henc Hlen m.
  apply format_accepted_iff in Hlen.
  subst m. rewrite (main_answered _ _ _ _ _ Hsub Hp Hc Hkey Hcreate Hbody Hlen).
  destruct (final_url_total (strip body)) as [url Hurl];
    [now apply strip_Forall|].
  rewrite Hurl. split.
  - exists url. repeat split.
  - intros ->. split; [reflexivity|].
    assert (url = base_url ++ lit "||||") as ->; [|reflexivity].
    assert (H : final_url (strip (lit "||||")) = inr (base_url ++ lit "||||"))
      by (vm_compute; reflexivity).
    congruence.
Qed.

Lemma five_segments_suffice_witness :
  let m := main project_key (answering (lit "||||")) coffee_form in
  link_urls (trace m) = [base_url ++ lit "||||"].
Proof.
  intros m.
  assert (Henc : encodable (lit "||||")) by (repeat constructor).
  assert (Hlen : (5 <= List.length (split PIPE (strip (lit "||||"))))%nat)
    by (vm_compute; lia).
  destruct (five_segments_suffice project_key (answering (lit "||||"))
              coffee_form
              {| choices := [ {| message_content := Some (lit "||||") |} ] |}
              (lit "||||") eq_refl ltac:(discriminate) ltac:(discriminate)
              eq_refl eq_refl eq_refl Henc Hlen) as [_ Hfour].
  destruct (Hfour eq_refl) as [_ Hl]. exact Hl.
Defined.

(** C10.  Whatever string the resolver returns is the body of the
    endpoint's answer with its surrounding whitespace stripped and nothing
    else changed: the body is the returned string between a run of
    whitespace characters and another, and the returned string neither
    starts nor ends with a whitespace character.  The returned string
    contains a pipe and splits on the pipe into at least five segments. *)
Theorem resolver_result_is_validated_body :
  forall (E : Type) (create : endpoint) (api_key : option str)
         (product_desc customer_profile v : str),
    result (@find_relevant_wiki_pages E create api_key
              product_desc customer_profile) = inr (Some v) ->
    exists (response : chat_completion) (body leading trailing : str),
      create (completion_request product_desc customer_profile) = inr response
      /\ response_body response = Some body
      /\ v = strip body
      /\ body = leading ++ v ++ trailing
      /\ Forall (fun c => isspace c = true) leading
      /\ Forall (fun c => isspace c = true) trailing
      /\ trimmed v
      /\ contains_char PIPE v = true
      /\ (5 <= List.length (split PIPE v))%nat.
Proof.
  intros E create api_key pd cp v. rewrite find_cases.
  destruct (key_rejected api_key); [discriminate|].
  destruct (resolver_try create pd cp) as [t [e|w]] eqn:Htry; [discriminate|].
  cbn [result snd]. intros Hv.
  destruct (resolver_try_returned create pd cp w)
    as (response & body & Hc & Hb & Hf & Hw).
  { now rewrite Htry. }
  apply format_rejected_false in Hf as [Hpipe Hlen].
  assert (v = strip body) by congruence. subst v.
  destruct (strip_decompose body) as (leading & trailing & Hdec & Hl & Ht).
  exists response, body, leading, trailing.
  repeat split; try assumption; apply strip_trimmed.
Qed.

Lemma resolver_result_is_validated_body_witness :
  let body := SPACE :: lit "A|B|C|D|E" ++ [NEWLINE] in
  let v := lit "A|B|C|D|E" in
  result (@find_relevant_wiki_pages unit (answering body) (Some project_key)
            (lit "coffee") (lit "students")) = inr (Some v)
  /\ body <> v
  /\ exists leading trailing,
       body = leading ++ v ++ trailing
       /\ Forall (fun c => isspace c = true) leading
       /\ Forall (fun c => isspace c = true) trailing
       /\ trimmed v.
Proof.
  intros body v. split; [reflexivity|]. split; [discriminate|].
  destruct (resolver_result_is_validated_body unit (answering body)
              (Some project_key) (lit "coffee") (lit "students") v eq_refl)
    as (response & b & leading & trailing
        & Hc & Hb & _ & Hdec & Hl & Ht & Htr & _).
  assert (Hbody : b = body).
  { unfold answering in Hc. injection Hc as Hr. rewrite <- Hr in Hb.
    unfold response_body in Hb. cbn [choices message_content] in Hb.
    injection Hb as Hb. symmetry. exact Hb. }
  exists leading, trailing. rewrite Hbody in Hdec.
  split; [exact Hdec|]. split; [exact Hl|]. split; [exact Ht|exact Htr].
Defined.

(** * Further properties

    Properties of the two functions and of the string operations they
    call, beyond the claims above. *)

Section Runs.

Variable key : str.
Variable create : endpoint.
Variable form : form_state.

Let product_desc := form_product_desc form.
Let customer_profile := form_customer_profile form.
Let req := completion_request product_desc customer_profile.

(** Every run of [main] has one of six shapes. *)
Lemma main_shapes :
  let m := main key create form in
  (form_submitted form = false /\ m = (form_events, inr tt))
  \/ (form_submitted form = true
      /\ (product_desc = [] \/ customer_profile = [])
      /\ m = (form_events ++ [StWarning missing_input_warning], inr tt))
  \/ (gates_open key form = false
      /\ form_submitted form = true
      /\ product_desc <> [] /\ customer_profile <> []
      /\ m = (form_events
              ++ [StSpinner spinner_text; StError invalid_key_message;
                  StError failure_text], inr tt))
  \/ (gates_open key form = true
      /\ exists e,
           result (resolver_try create product_desc customer_profile) = inl e
           /\ m = (form_events
                   ++ [StSpinner spinner_text; CompletionsCreate req;
                       StError (api_error_message e);
                       StError failure_text], inr tt))
  \/ (gates_open key form = true
      /\ exists s e,
           result (resolver_try create product_desc customer_profile)
           = inr (Some s)
           /\ final_url s = inl e
           /\ m = (form_events
                   ++ [StSpinner spinner_text; CompletionsCreate req;
                       StSuccess success_text], inl e))
  \/ (gates_open key form = true
      /\ exists s url,
           result (resolver_try create product_desc customer_profile)
           = inr (Some s)
           /\ final_url s = inr url
           /\ m = (form_events
                   ++ [StSpinner spinner_text; CompletionsCreate req]
                   ++ topic_events url (split PIPE s), inr tt)).
Proof.
  intros m. subst m. unfold gates_open. fold product_desc customer_profile.
  destruct (form_submitted form) eqn:Hsub.
  2:{ left. split; [reflexivity|]. now apply main_not_submitted. }
  right.
  destruct (truthy product_desc) eqn:Hp.
  2:{ left. split; [reflexivity|]. split; [left; now apply truthy_nil|].
      apply main_missing_input; [assumption|].
      fold product_desc. now rewrite Hp. }
  destruct (truthy customer_profile) eqn:Hc.
  2:{ left. split; [reflexivity|]. split; [right; now apply truthy_nil|].
      apply main_missing_input; [assumption|].
      fold customer_profile. rewrite Hc. apply orb_true_r. }
  right.
  assert (Hpn : product_desc <> []) by (intros E; now rewrite E in Hp).
  assert (Hcn : customer_profile <> []) by (intros E; now rewrite E in Hc).
  rewrite main_resolving;
    [|assumption|fold product_desc customer_profile; now rewrite Hp, Hc].
  fold product_desc customer_profile. rewrite find_cases.
  destruct (key_rejected (Some key)) eqn:Hkey.
  { left. repeat split; assumption. }
  right. cbn [andb negb].
  pose proof (resolver_try_trace create product_desc customer_profile) as Ht.
  fold req in Ht.
  destruct (resolver_try create product_desc customer_profile)
    as [t [e|v]] eqn:Htry; unfold trace in Ht; cbn [fst] in Ht; subst t.
  { left. split; [reflexivity|]. exists e. split; reflexivity. }
  right.
  destruct (resolver_try_returned create product_desc customer_profile v)
    as (response & body & _ & _ & Hf & ->); [now rewrite Htry|].
  rewrite (format_accepted_truthy _ Hf), show_topics_cases.
  destruct (final_url (strip body)) as [e|url] eqn:Hurl.
  - left. split; [reflexivity|]. exists (strip body), e. repeat split.
    assumption.
  - right. split; [reflexivity|]. exists (strip body), url. repeat split.
    assumption.
Qed.

End Runs.

(** X1.  A run of [main] calls the endpoint at most once, and exactly
    once when the form is submitted, both fields are filled in and the key
    passes the check; the request is then the one built from the two
    fields. *)
Theorem main_requests_once_when_gates_open :
  forall (key : str) (create : endpoint) (form : form_state),
    requests (trace (main key create form))
    = if gates_open key form
      then [completion_request (form_product_desc form)
                               (form_customer_profile form)]
      else [].
Proof.
  intros key create form.
  destruct (main_shapes key create form)
    as [[Hsub ->]|[(Hsub & Hempty & ->)|[(Hg & _ & _ & _ & ->)
       |[(Hg & e & _ & ->)|[(Hg & s & e & _ & _ & ->)
       |(Hg & s & url & _ & _ & ->)]]]]];
    try (rewrite Hg; reflexivity).
  - unfold gates_open. rewrite Hsub. reflexivity.
  - unfold gates_open. rewrite Hsub.
    destruct Hempty as [-> | ->]; cbn [truthy andb]; [reflexivity|].
    now rewrite andb_false_r.
Qed.

(** X2.  The outcomes of a run exclude one another.  The form is always
    rendered first.  At most one link is shown, and only in a run that
    ends normally with the success message, one request, the topics
    written, and neither error nor warning.  An error is shown only in a
    run that ends normally with the failure message last and neither
    success, link nor topics.  A warning is the only thing a run shows
    after the form.  A run that ends on an exception has shown the success
    message but neither link, topics nor error. *)
Theorem run_outcomes_exclude_one_another :
  forall (key : str) (create : endpoint) (form : form_state),
    let m := main key create form in
    let t := trace m in
    (exists rest, t = form_events ++ rest)
    /\ (List.length (link_urls t) <= 1)%nat
    /\ (link_urls t <> [] ->
        result m = inr tt /\ successes t = [success_text]
        /\ List.length (requests t) = 1%nat
        /\ List.length (written t) = 1%nat
        /\ errors t = [] /\ warnings t = [])
    /\ (errors t <> [] ->
        result m = inr tt /\ last (errors t) [] = failure_text
        /\ successes t = [] /\ link_urls t = [] /\ written t = []
        /\ warnings t = [])
    /\ (warnings t <> [] ->
        t = form_events ++ [StWarning missing_input_warning]
        /\ result m = inr tt)
    /\ (result m <> inr tt ->
        successes t = [success_text] /\ link_urls t = []
        /\ written t = [] /\ errors t = []).
Proof.
  intros key create form m t. subst t m.
  destruct (main_shapes key create form)
    as [[Hsub ->]|[(Hsub & Hempty & ->)|[(Hg & _ & _ & _ & ->)
       |[(Hg & e & _ & ->)|[(Hg & s & e & _ & _ & ->)
       |(Hg & s & url & _ & _ & ->)]]]]];
    cbn [trace result fst snd];
    (split; [eexists; try rewrite <- app_nil_r at 1; reflexivity|]);
    (split; [cbn; lia|]);
    repeat split;
    try reflexivity;
    try (exfalso;
         match goal with H : _ <> _ |- _ => apply H; reflexivity end).
Qed.

Lemma run_outcomes_exclude_one_another_witness :
  let t := trace (main project_key (answering coffee_topics) coffee_form) in
  errors t = [] /\ warnings t = [].
Proof.
  intros t.
  destruct (run_outcomes_exclude_one_another project_key
              (answering coffee_topics) coffee_form)
    as (_ & _ & Hlink & _).
  destruct Hlink as (_ & _ & _ & _ & He & Hw); [discriminate|].
  split; assumption.
Defined.

Section Surrogates.

Lemma isspace_not_surrogate c : isspace c = true -> is_surrogate c = false.
Proof.
  unfold isspace, is_surrogate.
  rewrite !orb_true_iff, !andb_true_iff, !N.leb_le, !N.eqb_eq.
  intros H. apply andb_false_iff. rewrite !N.leb_gt. lia.
Qed.

Lemma lstrip_Forall_inv (P : codepoint -> Prop) s :
  (forall c, isspace c = true -> P c) ->
  Forall P (lstrip s) -> Forall P s.
Proof.
  intros Hsp. induction s as [|c s IH]; cbn [lstrip]; [trivial|].
  destruct (isspace c) eqn:Hc; [|trivial].
  intros H. constructor; [now apply Hsp|now apply IH].
Qed.

Lemma strip_Forall_inv (P : codepoint -> Prop) s :
  (forall c, isspace c = true -> P c) ->
  Forall P (strip s) -> Forall P s.
Proof.
  intros Hsp H. unfold strip, rstrip in H.
  apply lstrip_Forall_inv; [assumption|].
  rewrite <- (rev_involutive (lstrip s)). apply Forall_rev.
  apply lstrip_Forall_inv; [assumption|].
  rewrite <- (rev_involutive (lstrip (rev (lstrip s)))). now apply Forall_rev.
Qed.

Lemma join_Forall (P : codepoint -> Prop) sep parts :
  Forall P sep -> Forall (Forall P) parts -> Forall P (join sep parts).
Proof.
  intros Hsep. induction 1 as [|p ps Hp Hps IH]; [constructor|].
  destruct ps as [|q ps]; [exact Hp|].
  change (join sep (p :: q :: ps)) with (p ++ sep ++ join sep (q :: ps)).
  apply Forall_app. split; [assumption|].
  apply Forall_app. split; assumption.
Qed.

Lemma encodable_strip s : encodable (strip s) <-> encodable s.
Proof.
  split; [|apply strip_Forall].
  apply strip_Forall_inv. exact isspace_not_surrogate.
Qed.

(** A string is encodable exactly when its stripped segments are. *)
Lemma encodable_segments s :
  Forall encodable (map strip (split PIPE s)) <-> encodable s.
Proof.
  split.
  - intros H. rewrite <- (join_split PIPE s). apply join_Forall.
    + repeat constructor.
    + rewrite Forall_map in H. eapply Forall_impl; [|exact H].
      intros seg. apply encodable_strip.
  - intros H. rewrite Forall_map. apply split_Forall with (sep := PIPE) in H.
    eapply Forall_impl; [|exact H]. intros seg. apply encodable_strip.
Qed.

(** Where [encoded_pages] stops: at a page of the list that holds a
    surrogate once stripped. *)
Lemma encoded_pages_raised pages obj :
  encoded_pages pages = inl (UnicodeEncodeError obj) ->
  In obj (map strip pages) /\ ~ encodable obj.
Proof.
  induction pages as [|p ps IH]; cbn [encoded_pages map]; [discriminate|].
  destruct (quote (strip p)) as [e|] eqn:Hq.
  - destruct (encoded_pages ps) as [err|es]; [|discriminate].
    intros H. destruct IH as [Hin Hn]; [congruence|].
    split; [now right|assumption].
  - intros H. assert (obj = strip p) by congruence. subst obj.
    split; [now left|].
    intros Henc. apply quote_defined_iff in Henc as [e He]. congruence.
Qed.

Lemma final_url_defined_iff s :
  (exists url, final_url s = inr url) <-> encodable s.
Proof.
  split; [|apply final_url_total].
  intros [url H]. apply final_url_inv in H as (encs & Henc & _).
  apply encodable_segments. apply encoded_pages_each in Henc.
  rewrite Forall_map.
  induction Henc as [|p e ps es Hq _ IH]; constructor; [|assumption].
  apply quote_defined_iff. now exists e.
Qed.

Lemma final_url_raised s err :
  final_url s = inl err ->
  exists obj, err = UnicodeEncodeError obj
              /\ In obj (map strip (split PIPE s)) /\ ~ encodable obj.
Proof.
  unfold final_url.
  destruct (encoded_pages (split PIPE s)) as [e|encs] eqn:Henc; [|discriminate].
  intros H. assert (e = err) by congruence. subst e.
  destruct err as [obj]. exists obj. split; [reflexivity|].
  now apply encoded_pages_raised.
Qed.

End Surrogates.

(** X3.  Once the resolver has accepted a body, the run ends normally
    exactly when the body holds no surrogate code point.  Otherwise it ends
    on the [UnicodeEncodeError] of one of the stripped segments, which
    holds a surrogate: the success message has been shown, but no link, no
    topic and no error. *)
Theorem accepted_body_fails_only_on_surrogate :
  forall (key : str) (create : endpoint) (form : form_state)
         (response : chat_completion) (body : str),
    form_submitted form = true ->
    form_product_desc form <> [] ->
    form_customer_profile form <> [] ->
    key_rejected (Some key) = false ->
    create (completion_request (form_product_desc form)
              (form_customer_profile form)) = inr response ->
    response_body response = Some body ->
    (5 <= List.length (split PIPE (strip body)))%nat ->
    let m := main key create form in
    (result m = inr tt <-> encodable body)
    /\ (forall err, result m = inl err ->
        exists obj,
          err = UnicodeEncodeError obj
          /\ In obj (map strip (split PIPE (strip body)))
          /\ ~ encodable obj
          /\ successes (trace m) = [success_text]
          /\ link_urls (trace m) = []
          /\ written (trace m) = []
          /\ errors (trace m) = []).
Proof.
  intros key create form response body Hsub Hp Hc Hkey Hcreate Hbody Hlen m.
  apply format_accepted_iff in Hlen. subst m.
  rewrite (main_answered _ _ _ _ _ Hsub Hp Hc Hkey Hcreate Hbody Hlen).
  rewrite <- (encodable_strip body), <- final_url_defined_iff.
  destruct (final_url (strip body)) as [e|url] eqn:Hurl; cbn [result trace fst snd].
  - split.
    + split; [discriminate|]. intros [url H]. discriminate.
    + intros err Herr. assert (e = err) by congruence. subst e.
      destruct (final_url_raised _ _ Hurl) as (obj & -> & Hin & Hn).
      exists obj. repeat split; assumption.
  - split.
    + split; [intros _; now exists url|reflexivity].
    + intros err Herr. discriminate.
Qed.

Lemma accepted_body_fails_only_on_surrogate_witness :
  let m := main project_key (answering surrogate_topics) coffee_form in
  ~ encodable surrogate_topics /\ result m <> inr tt.
Proof.
  intros m.
  assert (Hlen : (5 <= List.length (split PIPE (strip surrogate_topics)))%nat)
    by (vm_compute; lia).
  destruct (accepted_body_fails_only_on_surrogate project_key
              (answering surrogate_topics) coffee_form
              {| choices := [ {| message_content := Some surrogate_topics |} ] |}
              surrogate_topics eq_refl ltac:(discriminate)
              ltac:(discriminate) eq_refl eq_refl eq_refl Hlen)
    as [Hiff _].
  assert (Hn : ~ encodable surrogate_topics).
  { intros H. inversion H as [|? ? Hs _]. discriminate Hs. }
  split; [exact Hn|]. intros Hr. apply Hn, Hiff, Hr.
Defined.

Section Counting.

Lemma split_length_count sep s :
  List.length (split sep s) = S (count_char sep s).
Proof.
  unfold count_char. induction s as [|c s IH]; [reflexivity|].
  cbn [split count_occ].
  destruct (N.eqb_spec c sep) as [->|Hne].
  - destruct (N.eq_dec sep sep); [|congruence]. cbn [List.length]. now rewrite IH.
  - destruct (N.eq_dec c sep); [congruence|].
    destruct (split sep s) as [|seg segs]; [discriminate|exact IH].
Qed.

Lemma count_char_lstrip c s :
  isspace c = false -> count_char c (lstrip s) = count_char c s.
Proof.
  intros Hc. unfold count_char. induction s as [|x s IH]; [reflexivity|].
  cbn [lstrip]. destruct (isspace x) eqn:Hx; [|reflexivity].
  cbn [count_occ]. destruct (N.eq_dec x c); [congruence|exact IH].
Qed.

Lemma count_char_strip c s :
  isspace c = false -> count_char c (strip s) = count_char c s.
Proof.
  intros Hc. unfold strip, rstrip, count_char.
  rewrite count_occ_rev.
  etransitivity; [exact (count_char_lstrip c (rev (lstrip s)) Hc)|].
  unfold count_char. rewrite count_occ_rev.
  exact (count_char_lstrip c s Hc).
Qed.

Lemma format_rejected_count s :
  format_rejected s = Nat.ltb (count_char PIPE s) 4.
Proof.
  destruct (format_rejected s) eqn:Hf; symmetry.
  - apply Nat.ltb_lt.
    destruct (Nat.lt_ge_cases (count_char PIPE s) 4) as [H|H]; [assumption|].
    assert (Ha : format_rejected s = false).
    { apply format_accepted_iff. rewrite split_length_count. lia. }
    congruence.
  - apply Nat.ltb_ge. apply format_accepted_iff in Hf.
    rewrite split_length_count in Hf. lia.
Qed.

End Counting.

(** X4.  Whether the resolver accepts a body depends only on how many
    pipes the body holds: with a key that passes the check and an endpoint
    that answers with a body, the resolver returns a string if and only if
    the body, as received, holds at least four pipe characters.  The
    segments of the returned string are then one more than its pipes. *)
Theorem resolver_accepts_iff_four_pipes :
  forall (E : Type) (create : endpoint) (key product_desc customer_profile : str)
         (response : chat_completion) (body : str),
    key_rejected (Some key) = false ->
    create (completion_request product_desc customer_profile) = inr response ->
    response_body response = Some body ->
    let m := @find_relevant_wiki_pages E create (Some key)
               product_desc customer_profile in
    (resolved m = true <-> (4 <= count_char PIPE body)%nat)
    /\ (forall v, result m = inr (Some v) ->
        List.length (split PIPE v) = S (count_char PIPE body)).
Proof.
  intros E create key pd cp response body Hkey Hcreate Hbody m.
  assert (Hm : m = ([CompletionsCreate (completion_request pd cp)]
                    ++ (if format_rejected (strip body)
                        then [StError (api_error_message format_error)]
                        else []),
                    inr (if format_rejected (strip body) then None
                         else Some (strip body)))).
  { subst m. rewrite find_cases, Hkey.
    rewrite (resolver_try_answered create pd cp response body Hcreate Hbody).
    destruct (format_rejected (strip body)); [reflexivity|].
    now rewrite app_nil_r. }
  rewrite Hm. unfold resolved, result. cbn [snd].
  rewrite format_rejected_count, count_char_strip by reflexivity.
  destruct (Nat.ltb_spec (count_char PIPE body) 4) as [Hlt|Hge].
  - split; [split; [discriminate|lia]|discriminate].
  - split; [split; [intros _; assumption|reflexivity]|].
    intros v Hv. assert (v = strip body) by congruence. subst v.
    now rewrite split_length_count, count_char_strip.
Qed.

Lemma resolver_accepts_iff_four_pipes_witness :
  resolved (@find_relevant_wiki_pages unit (answering spaced_topics)
              (Some project_key) (lit "coffee") (lit "students")) = true.
Proof.
  apply (resolver_accepts_iff_four_pipes unit (answering spaced_topics)
           project_key (lit "coffee") (lit "students")
           {| choices := [ {| message_content := Some spaced_topics |} ] |}
           spaced_topics eq_refl eq_refl eq_refl).
  vm_compute. lia.
Defined.

Section PlainTitles.

Lemma safe_not_space c : is_safe c = true -> isspace c = false.
Proof.
  unfold is_safe, isspace.
  rewrite !orb_true_iff, !andb_true_iff, !N.leb_le, !N.eqb_eq.
  intros H. rewrite !orb_false_iff, !andb_false_iff, !N.leb_gt, !N.eqb_neq.
  lia.
Qed.

Lemma lstrip_no_space s :
  Forall (fun c => isspace c = false) s -> lstrip s = s.
Proof. intros H. destruct H as [|c s Hc _]; cbn [lstrip]; [|rewrite Hc]; reflexivity. Qed.

Lemma strip_no_space s :
  Forall (fun c => isspace c = false) s -> strip s = s.
Proof.
  intros H. unfold strip, rstrip. rewrite (lstrip_no_space s H).
  rewrite lstrip_no_space by now apply Forall_rev.
  apply rev_involutive.
Qed.

Lemma utf8_encode_ascii s :
  Forall (fun c => c < 128) s -> utf8_encode s = Some s.
Proof.
  induction 1 as [|c s Hc _ IH]; [reflexivity|].
  cbn [utf8_encode]. rewrite IH. unfold utf8_encode_cp.
  apply N.ltb_lt in Hc. now rewrite Hc.
Qed.

(** A string of safe characters is encoded as itself. *)
Lemma quote_safe s :
  Forall (fun c => is_safe c = true) s -> quote s = Some s.
Proof.
  intros H. unfold quote. rewrite utf8_encode_ascii.
  - cbn [option_map]. f_equal. unfold quote_from_bytes.
    induction H as [|c s Hc _ IH]; [reflexivity|].
    cbn [flat_map]. unfold quote_byte at 1. rewrite Hc, IH. reflexivity.
  - eapply Forall_impl; [|exact H]. intros c Hc. now apply safe_plain in Hc.
Qed.

(** The segments of a string hold what the string holds, the separator
    apart. *)
Lemma split_Forall_but_sep (P : codepoint -> Prop) sep s :
  Forall (fun c => P c \/ c = sep) s -> Forall (Forall P) (split sep s).
Proof.
  induction 1 as [|c s Hc _ IH]; cbn [split]; [repeat constructor|].
  destruct (N.eqb_spec c sep) as [->|Hne].
  - constructor; [constructor|assumption].
  - destruct Hc as [Hc|Hc]; [|contradiction].
    destruct (split sep s) as [|seg segs]; [repeat constructor; assumption|].
    inversion IH; subst. constructor; [constructor|]; assumption.
Qed.

Lemma encoded_pages_safe pages :
  Forall (Forall (fun c => is_safe c = true)) pages ->
  encoded_pages pages = inr pages.
Proof.
  induction 1 as [|p ps Hp _ IH]; [reflexivity|].
  cbn [encoded_pages].
  rewrite strip_no_space
    by (eapply Forall_impl; [|exact Hp]; intros c; apply safe_not_space).
  now rewrite (quote_safe p Hp), IH.
Qed.

Lemma final_url_plain s :
  Forall (fun c => is_safe c = true \/ c = PIPE) s ->
  final_url s = inr (base_url ++ s).
Proof.
  intros H. unfold final_url.
  rewrite encoded_pages_safe by now apply split_Forall_but_sep.
  now rewrite join_split.
Qed.

End PlainTitles.

(** X5.  When the body the endpoint returns is made only of the
    characters [quote] leaves alone (letters, digits and [_.-~/]) and of
    at least four pipes, the link is the base URL followed by the body,
    character for character: nothing is escaped, stripped or reordered. *)
Theorem plain_body_is_linked_verbatim :
  forall (key : str) (create : endpoint) (form : form_state)
         (response : chat_completion) (body : str),
    form_submitted form = true ->
    form_product_desc form <> [] ->
    form_customer_profile form <> [] ->
    key_rejected (Some key) = false ->
    create (completion_request (form_product_desc form)
              (form_customer_profile form)) = inr response ->
    response_body response = Some body ->
    Forall (fun c => is_safe c = true \/ c = PIPE) body ->
    (4 <= count_char PIPE body)%nat ->
    let m := main key create form in
    link_urls (trace m) = [base_url ++ body] /\ result m = inr tt.
Proof.
  intros key create form response body Hsub Hp Hc Hkey Hcreate Hbody
    Hplain Hpipes m.
  assert (Hstrip : strip body = body).
  { apply strip_no_space. eapply Forall_impl; [|exact Hplain].
    intros c [Hs| ->]; [now apply safe_not_space|reflexivity]. }
  assert (Hformat : format_rejected (strip body) = false).
  { rewrite Hstrip. apply format_accepted_iff.
    rewrite split_length_count. lia. }
  subst m.
  rewrite (main_answered _ _ _ _ _ Hsub Hp Hc Hkey Hcreate Hbody Hformat).
  rewrite Hstrip, (final_url_plain body Hplain). split; reflexivity.
Qed.

Lemma plain_body_is_linked_verbatim_witness :
  let m := main project_key (answering coffee_topics) coffee_form in
  link_urls (trace m) = [base_url ++ coffee_topics].
Proof.
  intros m.
  assert (Hplain : Forall (fun c => is_safe c = true \/ c = PIPE)
                          coffee_topics).
  { apply Forall_forall. intros c Hin.
    assert (H : forallb (fun c => is_safe c || (c =? PIPE)) coffee_topics
                = true) by (vm_compute; reflexivity).
    rewrite forallb_forall in H. specialize (H c Hin).
    apply orb_true_iff in H as [H|H]; [now left|right; now apply N.eqb_eq]. }
  assert (Hpipes : (4 <= count_char PIPE coffee_topics)%nat)
    by (vm_compute; lia).
  apply (plain_body_is_linked_verbatim project_key (answering coffee_topics)
           coffee_form
           {| choices := [ {| message_content := Some coffee_topics |} ] |}
           coffee_topics eq_refl ltac:(discriminate) ltac:(discriminate)
           eq_refl eq_refl eq_refl Hplain Hpipes).
Defined.

Section UrlCharacters.

Lemma hex_digit_visible n : n < 16 -> visible_ascii (hex_digit n).
Proof.
  intros H. unfold visible_ascii, hex_digit.
  destruct (N.ltb_spec n 10); lia.
Qed.

Lemma safe_visible b : is_safe b = true -> visible_ascii b.
Proof.
  unfold is_safe, visible_ascii.
  rewrite !orb_true_iff, !andb_true_iff, !N.leb_le, !N.eqb_eq. lia.
Qed.

Lemma quote_byte_visible b : b < 256 -> Forall visible_ascii (quote_byte b).
Proof.
  intros Hb. unfold quote_byte. destruct (is_safe b) eqn:Hs.
  - apply Forall_cons; [now apply safe_visible|apply Forall_nil].
  - unfold percent_escape.
    apply Forall_cons; [unfold visible_ascii, PERCENT; lia|].
    apply Forall_cons; [apply hex_digit_visible; lia|].
    apply Forall_cons; [apply hex_digit_visible; lia|].
    apply Forall_nil.
Qed.

Lemma quote_visible s e :
  is_text s -> quote s = Some e -> Forall visible_ascii e.
Proof.
  intros Hs H. apply quote_inv in H as (bs & Hbs & ->).
  pose proof (utf8_encode_bytes s bs Hs Hbs) as Hb. clear Hbs.
  unfold quote_from_bytes. induction Hb as [|b bs Hb _ IH]; [constructor|].
  cbn [flat_map]. apply Forall_app. split; [now apply quote_byte_visible|exact IH].
Qed.

Lemma base_url_visible : Forall visible_ascii base_url.
Proof.
  apply Forall_forall. intros c Hin.
  assert (H : forallb (fun c => (33 <=? c) && (c <=? 126)) base_url = true)
    by (vm_compute; reflexivity).
  rewrite forallb_forall in H. specialize (H c Hin).
  apply andb_true_iff in H as [H1 H2]. apply N.leb_le in H1, H2.
  split; assumption.
Qed.

End UrlCharacters.

(** X6.  Every character of a link the program builds is a visible ASCII
    character (0x21 to 0x7E): whatever the response holds, spaces, control
    characters and non-ASCII characters never reach the URL unescaped. *)
Theorem trend_url_is_visible_ascii :
  forall s url : str,
    is_text s -> final_url s = inr url -> Forall visible_ascii url.
Proof.
  intros s url Hs H. apply final_url_inv in H as (encs & Henc & ->).
  apply Forall_app. split; [exact base_url_visible|].
  apply join_Forall.
  - apply Forall_cons; [unfold visible_ascii, PIPE; lia|apply Forall_nil].
  - apply encoded_pages_each in Henc.
    assert (Hsegs : Forall is_text (split PIPE s)) by now apply split_Forall.
    induction Henc as [|p e ps es Hq _ IH]; [constructor|].
    inversion Hsegs; subst. constructor; [|now apply IH].
    eapply quote_visible; [|eassumption]. now apply strip_Forall.
Qed.

Lemma trend_url_is_visible_ascii_witness :
  Forall visible_ascii
    (base_url ++ lit "Caf%C3%A9%20au%20lait|Tea|Espresso|Beans|Roasting").
Proof.
  apply (trend_url_is_visible_ascii
           (lit "Caf" ++ [233] ++ lit " au lait|Tea |Espresso|Beans|Roasting")).
  - repeat constructor.
  - vm_compute. reflexivity.
Defined.

(** X7.  The link determines the topics: two texts that give the same URL
    have the same segments once stripped, and two tokens with the same
    encoding are the same token. *)
Theorem same_url_same_topics :
  (forall a b e : str,
     is_text a -> is_text b ->
     quote a = Some e -> quote b = Some e -> a = b)
  /\ (forall s1 s2 url : str,
        is_text s1 -> is_text s2 ->
        final_url s1 = inr url -> final_url s2 = inr url ->
        map strip (split PIPE s1) = map strip (split PIPE s2)).
Proof.
  split.
  - intros a b e Ha Hb Hqa Hqb.
    apply (percent_decode_quote a e Ha) in Hqa.
    apply (percent_decode_quote b e Hb) in Hqb. congruence.
  - intros s1 s2 url H1 H2 Hu1 Hu2.
    destruct (pages_of_final_url s1 url H1 Hu1) as [_ Hp1].
    destruct (pages_of_final_url s2 url H2 Hu2) as [_ Hp2]. congruence.
Qed.

Lemma same_url_same_topics_witness :
  map strip (split PIPE (lit "A |B|C|D|E"))
  = map strip (split PIPE (lit "A| B|C|D|E")).
Proof.
  destruct same_url_same_topics as [_ H].
  apply (H (lit "A |B|C|D|E") (lit "A| B|C|D|E")
           (base_url ++ lit "A|B|C|D|E")).
  - repeat constructor.
  - repeat constructor.
  - vm_compute. reflexivity.
  - vm_compute. reflexivity.
Defined.

Section QuoteLength.

Lemma quote_byte_length b :
  (1 <= List.length (quote_byte b) <= 3)%nat
  /\ (List.length (quote_byte b) = 1%nat -> is_safe b = true).
Proof.
  unfold quote_byte. destruct (is_safe b); cbn [percent_escape List.length].
  - split; [lia|reflexivity].
  - unfold percent_escape. cbn [List.length]. split; [lia|discriminate].
Qed.

Lemma quote_from_bytes_length bs :
  (List.length bs <= List.length (quote_from_bytes bs)
   <= 3 * List.length bs)%nat.
Proof.
  unfold quote_from_bytes. induction bs as [|b bs IH]; cbn [flat_map List.length]; [lia|].
  rewrite length_app. destruct (quote_byte_length b) as [Hb _]. lia.
Qed.

(** A code point gives one to four bytes, and one byte only when it is
    ASCII, in which case the byte is the code point. *)
Lemma utf8_encode_cp_length c cb :
  utf8_encode_cp c = Some cb ->
  (1 <= List.length cb <= 4)%nat
  /\ (List.length cb = 1%nat -> cb = [c]).
Proof.
  unfold utf8_encode_cp. intros H.
  destruct (c <? 128); [some_inj H; cbn; split; [lia|reflexivity]|].
  destruct (c <? 2048); [some_inj H; cbn; split; [lia|discriminate]|].
  destruct (is_surrogate c); [discriminate|].
  destruct (c <? 65536); some_inj H; cbn; (split; [lia|discriminate]).
Qed.

(** What one code point contributes to the encoding. *)
Lemma quote_cp_length c cb :
  utf8_encode_cp c = Some cb ->
  (1 <= List.length (quote_from_bytes cb) <= 12)%nat
  /\ (List.length (quote_from_bytes cb) = 1%nat -> is_safe c = true).
Proof.
  intros H. destruct (utf8_encode_cp_length c cb H) as [Hlen Hone].
  pose proof (quote_from_bytes_length cb) as Hq. split; [lia|].
  intros H1. assert (cb = [c]) as -> by (apply Hone; lia).
  unfold quote_from_bytes in H1. cbn [flat_map] in H1.
  rewrite app_nil_r in H1. now apply quote_byte_length.
Qed.

Lemma quote_from_bytes_app a b :
  quote_from_bytes (a ++ b) = quote_from_bytes a ++ quote_from_bytes b.
Proof. apply flat_map_app. Qed.

Lemma quote_length s e :
  quote s = Some e ->
  (List.length s <= List.length e <= 12 * List.length s)%nat
  /\ (List.length e = List.length s -> Forall (fun c => is_safe c = true) s).
Proof.
  intros H. apply quote_inv in H as (bs & Hbs & ->). revert bs Hbs.
  induction s as [|c s IH]; intros bs Hbs; cbn [utf8_encode] in Hbs.
  - some_inj Hbs. cbn. split; [lia|constructor].
  - destruct (utf8_encode_cp c) as [cb|] eqn:Hc; [|discriminate].
    destruct (utf8_encode s) as [rest|]; [|discriminate].
    some_inj Hbs. rewrite quote_from_bytes_app, length_app.
    destruct (quote_cp_length c cb Hc) as [Hlen Hone].
    destruct (IH rest eq_refl) as [Hrest Hall].
    cbn [List.length]. split; [lia|].
    intros Heq. constructor; [apply Hone; lia|apply Hall; lia].
Qed.

End QuoteLength.

(** X8.  Encoding never shortens a token and lengthens it at most twelve
    times; the tokens it leaves unchanged are exactly those made of
    letters, digits and [_.-~/]. *)
Theorem quote_length_and_fixed_points :
  forall s e : str,
    quote s = Some e ->
    (List.length s <= List.length e <= 12 * List.length s)%nat
    /\ (e = s <-> Forall (fun c => is_safe c = true) s).
Proof.
  intros s e H. destruct (quote_length s e H) as [Hlen Hfix].
  split; [exact Hlen|]. split.
  - intros ->. now apply Hfix.
  - intros Hsafe. rewrite (quote_safe s Hsafe) in H. congruence.
Qed.

Lemma quote_length_and_fixed_points_witness :
  (List.length (lit "C++") <= List.length (lit "C%2B%2B")
   <= 12 * List.length (lit "C++"))%nat.
Proof.
  apply (quote_length_and_fixed_points (lit "C++") (lit "C%2B%2B")).
  vm_compute. reflexivity.
Defined.

(** X9.  The string the resolver returns neither starts nor ends with a
    whitespace character, and stripping it again changes nothing; it is
    never empty. *)
Theorem resolver_result_is_trimmed :
  forall (E : Type) (create : endpoint) (api_key : option str)
         (product_desc customer_profile v : str),
    result (@find_relevant_wiki_pages E create api_key
              product_desc customer_profile) = inr (Some v) ->
    trimmed v /\ strip v = v /\ v <> [].
Proof.
  intros E create api_key pd cp v. rewrite find_cases.
  destruct (key_rejected api_key); [discriminate|].
  destruct (resolver_try create pd cp) as [t [e|w]] eqn:Htry; [discriminate|].
  cbn [result snd]. intros Hv.
  destruct (resolver_try_returned create pd cp w)
    as (response & body & _ & _ & Hf & Hw); [now rewrite Htry|].
  assert (v = strip body) by congruence. subst v.
  split; [apply strip_trimmed|].
  split; [apply trimmed_strip, strip_trimmed|].
  apply format_accepted_truthy in Hf. intros E0. now rewrite E0 in Hf.
Qed.

Lemma resolver_result_is_trimmed_witness :
  strip (lit "A|B|C|D|E") = lit "A|B|C|D|E".
Proof.
  apply (resolver_result_is_trimmed unit
           (answering (SPACE :: lit "A|B|C|D|E" ++ [NEWLINE]))
           (Some project_key) (lit "coffee") (lit "students")
           (lit "A|B|C|D|E") eq_refl).
Defined.

Section Display.

Lemma replace_char_gone a b s :
  a <> b -> Forall (fun c => c <> a) (replace_char a b s).
Proof.
  intros Hab. unfold replace_char. apply Forall_map, Forall_forall.
  intros c _. destruct (N.eqb_spec c a); [now apply not_eq_sym|assumption].
Qed.

Lemma replace_char_absent a b s :
  Forall (fun c => c <> a) s -> replace_char a b s = s.
Proof.
  unfold replace_char. induction 1 as [|c s Hc _ IH]; [reflexivity|].
  cbn [map]. apply N.eqb_neq in Hc. now rewrite Hc, IH.
Qed.

End Display.

(** X10.  The topics displayed are as many as the segments, in the same
    order; none holds an underscore and none starts or ends with
    whitespace.  A segment that is already trimmed and holds no underscore
    is displayed as it is. *)
Theorem displayed_topics_are_clean :
  forall page_list : list str,
    List.length (readable_pages page_list) = List.length page_list
    /\ Forall (fun p => contains_char UNDERSCORE p = false /\ trimmed p)
              (readable_pages page_list)
    /\ (forall (i : nat) (p : str),
          nth_error page_list i = Some p ->
          exists r, nth_error (readable_pages page_list) i = Some r
                    /\ r = strip (replace_char UNDERSCORE SPACE p)
                    /\ (trimmed p -> contains_char UNDERSCORE p = false ->
                        r = p)).
Proof.
  intros page_list. unfold readable_pages. split; [apply length_map|]. split.
  - apply Forall_map, Forall_forall. intros p _. split.
    + apply contains_char_false, strip_Forall, replace_char_gone. discriminate.
    + apply strip_trimmed.
  - intros i p Hp. eexists. split; [exact (map_nth_error _ _ _ Hp)|].
    split; [reflexivity|]. intros Ht Hu.
    rewrite replace_char_absent by now apply contains_char_false.
    now apply trimmed_strip.
Qed.

Lemma displayed_topics_are_clean_witness :
  exists r, nth_error (readable_pages coffee_tokens) 6 = Some r
            /\ r = lit "Fair trade".
Proof.
  destruct (displayed_topics_are_clean coffee_tokens) as (_ & _ & H).
  destruct (H 6%nat (lit "Fair_trade") eq_refl) as (r & Hr & Heq & _).
  exists r. split; [exact Hr|]. rewrite Heq. reflexivity.
Defined.

(** X11.  The resolver fails loudly and succeeds silently.  Whatever the
    key, the endpoint and the two fields, it returns: a string after
    showing no error, or [None] after showing exactly one.  It shows
    nothing but that error, and calls the endpoint once if the key passes
    the check and never otherwise. *)
Theorem resolver_fails_loudly :
  forall (E : Type) (create : endpoint) (api_key : option str)
         (product_desc customer_profile : str),
    let m := @find_relevant_wiki_pages E create api_key
               product_desc customer_profile in
    let t := trace m in
    ((exists v, result m = inr (Some v) /\ errors t = [])
     \/ (result m = inr None /\ List.length (errors t) = 1%nat))
    /\ requests t
       = (if key_rejected api_key then []
          else [completion_request product_desc customer_profile])
    /\ List.length t
       = (List.length (requests t) + List.length (errors t))%nat.
Proof.
  intros E create api_key pd cp m t. subst t m. rewrite find_cases.
  destruct (key_rejected api_key).
  { split; [right; split; reflexivity|]. split; reflexivity. }
  pose proof (resolver_try_trace create pd cp) as Ht.
  destruct (resolver_try create pd cp) as [t [e|v]] eqn:Htry;
    unfold trace in Ht; cbn [fst] in Ht; subst t.
  { split; [right; split; reflexivity|]. split; reflexivity. }
  destruct (resolver_try_returned create pd cp v)
    as (response & body & _ & _ & _ & ->); [now rewrite Htry|].
  split; [left; exists (strip body); split; reflexivity|].
  split; reflexivity.
Qed.

(** X12.  A completion that carries no usable content is a failure, not
    a crash: when the list of choices is empty, or the first choice has no
    content, the resolver shows the text of the Python error,
    [list index out of range] or
    ['NoneType' object has no attribute 'strip'], after the fixed prefix,
    and [main] shows the failure message without link. *)
Theorem completion_without_content_fails :
  forall (key : str) (create : endpoint) (form : form_state)
         (response : chat_completion),
    form_submitted form = true ->
    form_product_desc form <> [] ->
    form_customer_profile form <> [] ->
    key_rejected (Some key) = false ->
    create (completion_request (form_product_desc form)
              (form_customer_profile form)) = inr response ->
    response_body response = None ->
    let m := main key create form in
    let text := match choices response with
                | [] => lit "list index out of range"
                | _ :: _ => lit "'NoneType' object has no attribute 'strip'"
                end in
    result m = inr tt
    /\ errors (trace m)
       = [lit "An error occurred while contacting the OpenAI API: " ++ text;
          failure_text]
    /\ link_urls (trace m) = []
    /\ requests (trace m)
       = [completion_request (form_product_desc form)
                             (form_customer_profile form)].
Proof.
  intros key create form response Hsub Hp Hc Hkey Hcreate Hnone m text.
  set (e := match choices response with
            | [] => index_error
            | _ :: _ => attribute_error
            end).
  assert (Hshown : api_error_message e
                   = lit "An error occurred while contacting the OpenAI API: "
                     ++ text).
  { subst e text. destruct (choices response); reflexivity. }
  assert (Hraise : result (resolver_try create (form_product_desc form)
                             (form_customer_profile form)) = inl e).
  { apply resolver_try_raises. right. exists response.
    split; [assumption|]. subst e. unfold response_body in Hnone.
    destruct (choices response) as [|c cs] eqn:Hch.
    - left. split; reflexivity.
    - right. left. exists c, cs. repeat split. assumption. }
  assert (Hg : gates_open key form = true).
  { unfold gates_open. rewrite Hsub, Hkey.
    destruct (form_product_desc form), (form_customer_profile form);
      try congruence. reflexivity. }
  subst m. rewrite <- Hshown.
  destruct (main_shapes key create form)
    as [[Hs _]|[(_ & [Hn|Hn] & _)|[(Hg' & _)
       |[(_ & e' & He' & ->)|[(_ & s & x & Hs & _)
       |(_ & s & url & Hs & _)]]]]]; try congruence.
  assert (e' = e) by congruence. subst e'.
  split; [reflexivity|]. split; [reflexivity|]. split; reflexivity.
Qed.

Lemma completion_without_content_fails_witness :
  let m := main project_key (fun _ => inr {| choices := [] |}) coffee_form in
  errors (trace m)
  = [lit "An error occurred while contacting the OpenAI API: list index out of range";
     failure_text].
Proof.
  intros m.
  apply (completion_without_content_fails project_key
           (fun _ => inr {| choices := [] |}) coffee_form {| choices := [] |}
           eq_refl ltac:(discriminate) ltac:(discriminate)
           eq_refl eq_refl eq_refl).
Defined.

Section Segments.

Lemma split_segments_no_sep sep s :
  Forall (fun seg => contains_char sep seg = false) (split sep s).
Proof.
  induction s as [|c s IH]; cbn [split]; [repeat constructor|].
  destruct (N.eqb_spec c sep) as [->|Hne].
  - constructor; [reflexivity|assumption].
  - destruct (split sep s) as [|seg segs]; [repeat constructor|].
    + cbn [contains_char existsb]. apply not_eq_sym, N.eqb_neq in Hne.
      now rewrite Hne.
    + inversion IH as [|? ? Hseg Hsegs]; subst. constructor; [|assumption].
      unfold contains_char in *. cbn [existsb].
      apply not_eq_sym, N.eqb_neq in Hne. now rewrite Hne.
Qed.

Lemma lstrip_all_space s :
  Forall (fun c => isspace c = true) s -> lstrip s = [].
Proof.
  induction 1 as [|c s Hc _ IH]; [reflexivity|]. cbn [lstrip]. now rewrite Hc.
Qed.

End Segments.

(** X14.  Splitting the resolver's string loses nothing: joining the
    segments with a pipe gives the string back, no segment holds a pipe,
    there is always at least one segment, and the segments are one more
    than the pipes.  Conversely any non-empty list of pipe-free parts is
    what splitting their join returns. *)
Theorem split_loses_nothing :
  forall s : str,
    join [PIPE] (split PIPE s) = s
    /\ Forall (fun seg => contains_char PIPE seg = false) (split PIPE s)
    /\ List.length (split PIPE s) = S (count_char PIPE s)
    /\ (forall parts : list str,
          parts <> [] ->
          Forall (fun p => contains_char PIPE p = false) parts ->
          join [PIPE] parts = s -> split PIPE s = parts).
Proof.
  intros s. split; [apply join_split|].
  split; [apply split_segments_no_sep|].
  split; [apply split_length_count|].
  intros parts Hne Hfree <-. now apply split_join.
Qed.

Lemma split_loses_nothing_witness :
  split PIPE (lit "A||C") = [lit "A"; []; lit "C"].
Proof.
  destruct (split_loses_nothing (lit "A||C")) as (_ & _ & _ & H).
  apply H; [discriminate|repeat constructor|reflexivity].
Defined.

(** X15.  Stripping removes whitespace at the two ends and nothing else:
    the string is its stripped form between two runs of whitespace, and
    the stripped form neither starts nor ends with whitespace.  Hence a
    string is left unchanged exactly when it is already trimmed, stripping
    twice is stripping once, and the result is empty exactly when the
    string is all whitespace. *)
Theorem strip_removes_outer_whitespace_only :
  forall s : str,
    (exists a b,
       s = a ++ strip s ++ b
       /\ Forall (fun c => isspace c = true) a
       /\ Forall (fun c => isspace c = true) b)
    /\ trimmed (strip s)
    /\ (strip s = s <-> trimmed s)
    /\ strip (strip s) = strip s
    /\ (strip s = [] <-> Forall (fun c => isspace c = true) s).
Proof.
  intros s. split; [apply strip_decompose|].
  split; [apply strip_trimmed|].
  split; [apply strip_fixed_iff|].
  split; [apply trimmed_strip, strip_trimmed|].
  split.
  - intros H. destruct (strip_decompose s) as (a & b & Hs & Ha & Hb).
    rewrite H in Hs. rewrite Hs. cbn [app]. apply Forall_app. now split.
  - intros H. unfold strip, rstrip. rewrite (lstrip_all_space s H). reflexivity.
Qed.

Lemma strip_removes_outer_whitespace_only_witness :
  strip (lit "Slow food") = lit "Slow food".
Proof.
  destruct (strip_removes_outer_whitespace_only (lit "Slow food"))
    as (_ & _ & H & _).
  apply H. split; intros c Hc; vm_compute in Hc;
    injection Hc as <-; reflexivity.
Defined.

Section Prompt.

(** The resolver sees the two fields through the request only. *)
Lemma resolver_depends_on_request (E : Type) create api_key pd1 cp1 pd2 cp2 :
  completion_request pd1 cp1 = completion_request pd2 cp2 ->
  @find_relevant_wiki_pages E create api_key pd1 cp1
  = @find_relevant_wiki_pages E create api_key pd2 cp2.
Proof.
  intros H. unfold find_relevant_wiki_pages, resolver_try. now rewrite H.
Qed.

Lemma prompt_between_fields_length :
  (0 < List.length prompt_between_fields)%nat.
Proof. vm_compute. lia. Qed.

End Prompt.

(** X16.  The prompt does not keep the two fields apart.  Text moved from
    the end of the product description to the start of the customer
    profile, across the words that stand between the two fields, gives a
    different submission but the same request, and so the same run of the
    resolver. *)
Theorem prompt_fields_are_not_delimited :
  forall (E : Type) (create : endpoint) (api_key : option str) (x y z : str),
    let pd1 := x ++ prompt_between_fields ++ y in
    let cp2 := y ++ prompt_between_fields ++ z in
    pd1 <> x
    /\ completion_request pd1 z = completion_request x cp2
    /\ @find_relevant_wiki_pages E create api_key pd1 z
       = @find_relevant_wiki_pages E create api_key x cp2.
Proof.
  intros E create api_key x y z pd1 cp2.
  assert (Hreq : completion_request pd1 z = completion_request x cp2).
  { subst pd1 cp2. unfold completion_request, user_prompt.
    fold prompt_between_fields. do 3 f_equal.
    rewrite <- !app_assoc. reflexivity. }
  split; [|split; [exact Hreq|now apply resolver_depends_on_request]].
  subst pd1. intros H. apply (f_equal (@List.length _)) in H.
  rewrite !length_app in H. pose proof prompt_between_fields_length. lia.
Qed.

Section Bullets.

Lemma bulleted_join parts :
  parts <> [] ->
  bullet ++ join (NEWLINE :: bullet) parts
  = join [NEWLINE] (map (app bullet) parts).
Proof.
  induction parts as [|p ps IH]; [congruence|]. intros _.
  destruct ps as [|q ps]; [reflexivity|].
  change (join (NEWLINE :: bullet) (p :: q :: ps))
    with (p ++ (NEWLINE :: bullet) ++ join (NEWLINE :: bullet) (q :: ps)).
  change (map (app bullet) (p :: q :: ps))
    with ((bullet ++ p) :: map (app bullet) (q :: ps)).
  change (join [NEWLINE] ((bullet ++ p) :: map (app bullet) (q :: ps)))
    with ((bullet ++ p) ++ [NEWLINE]
          ++ join [NEWLINE] (map (app bullet) (q :: ps))).
  rewrite <- IH by discriminate.
  rewrite <- !app_assoc. reflexivity.
Qed.

End Bullets.

(** X17.  The topics are written one per line.  When no displayed topic
    holds a newline, the lines of the text written are the displayed
    topics, in order, each after the bullet. *)
Theorem topics_are_written_one_per_line :
  forall page_list : list str,
    page_list <> [] ->
    Forall (fun r => contains_char NEWLINE r = false)
           (readable_pages page_list) ->
    split NEWLINE (topics_text page_list)
    = map (app bullet) (readable_pages page_list).
Proof.
  intros page_list Hne Hnl. unfold topics_text.
  assert (Hr : readable_pages page_list <> []).
  { unfold readable_pages. destruct page_list; [congruence|discriminate]. }
  rewrite (bulleted_join _ Hr). apply split_join.
  - destruct (readable_pages page_list); [congruence|discriminate].
  - apply Forall_map. eapply Forall_impl; [|exact Hnl].
    intros r Hrn. rewrite contains_char_app, Hrn. reflexivity.
Qed.

Lemma topics_are_written_one_per_line_witness :
  split NEWLINE (topics_text coffee_tokens)
  = map (app bullet) coffee_readable.
Proof.
  apply (topics_are_written_one_per_line coffee_tokens);
    [discriminate|].
  apply Forall_forall. intros r Hin.
  assert (H : forallb (fun r => negb (contains_char NEWLINE r))
                (readable_pages coffee_tokens) = true)
    by (vm_compute; reflexivity).
  rewrite forallb_forall in H. apply negb_true_iff. now apply H.
Defined.
